(** * Conway's Life with genetics and maturity: the board update of app.js

    A shallow embedding of the [Cell] and [Board] objects of [src/app.js]
    and the properties of the generation update.

    - A cell's [maturity] is a JavaScript number, hence a binary64 float:
      it is modelled with Rocq's primitive floats, whose [add] and [ltb]
      are the IEEE 754 operations JavaScript uses.
    - A cell's [color] is a JavaScript string such as ["#rrggbb"].
    - [Board.cells] and [Board.next] are arrays of columns: [cells[x][y]].
    - Methods mutate the board in place and may raise [TypeError] when they
      read a property of [undefined]; they are written in a state and
      exception monad over the board.
    - Drawing on the canvas does not touch the board and is left out. *)

From Stdlib Require Import ZArith String Lia.
From Stdlib Require Import Floats.PrimFloat.
From stdpp Require Import base numbers list list_numbers.

Set Warnings "-inexact-float".
Local Open Scope Z_scope.

(** ** Cells *)

Module Cell.

Record t : Type := mk {
  x : Z;
  y : Z;
  isAlive : bool;
  maturity : float;
  color : string
}.

(** [function Cell (x, y, color)]: a dead cell of maturity 0.1;
    [color || '#000000'] falls back on black when the argument is
    [undefined] or the empty string. *)
Definition new (x y : Z) (color : option string) : t :=
  mk x y false 0.1%float
     (match color with
      | Some c => if String.eqb c "" then "#000000"%string else c
      | None => "#000000"%string
      end).

Definition set_isAlive (v : bool) (c : t) : t :=
  mk (x c) (y c) v (maturity c) (color c).

Definition set_maturity (v : float) (c : t) : t :=
  mk (x c) (y c) (isAlive c) v (color c).

Definition set_color (v : string) (c : t) : t :=
  mk (x c) (y c) (isAlive c) (maturity c) v.

(** [Cell.prototype.kill] *)
Definition kill (c : t) : t :=
  set_maturity 0.1%float (set_isAlive false c).

(** [Cell.prototype.toggle]; [color] is what [colorPalette.getColor()]
    returns, the colour chosen on the page. *)
Definition toggle (color : string) (c : t) : t :=
  if isAlive c then
    if String.eqb (Cell.color c) color then kill c
    else set_color color c
  else set_color color (set_isAlive true c).

(** The statement [cell.maturity += 0.1] guarded by
    [if (cell.maturity < 1)] in [Board.prototype.update]. *)
Definition mature (c : t) : t :=
  if PrimFloat.ltb (maturity c) 1%float
  then set_maturity (PrimFloat.add (maturity c) 0.1%float) c
  else c.

End Cell.

(** ** Boards, and the monad of the methods *)

Module Board.

Record t : Type := mk {
  width : Z;
  height : Z;
  cells : list (list Cell.t);
  next : list (list bool)
}.

Inductive Exn : Type := TypeError.

Inductive Outcome (A : Type) : Type :=
| Ok (a : A) (b : t)
| Throw (e : Exn) (b : t).
Arguments Ok {A} a b.
Arguments Throw {A} e b.

(** The board a call leaves behind, whether it returned or threw. *)
Definition state_of {A} (o : Outcome A) : t :=
  match o with Ok _ b => b | Throw _ b => b end.

Definition M (A : Type) : Type := t -> Outcome A.

Definition ret {A} (a : A) : M A := fun b => Ok a b.

Definition bind {A B} (m : M A) (k : A -> M B) : M B :=
  fun b => match m b with
           | Ok a b' => k a b'
           | Throw e b' => Throw e b'
           end.

Definition get : M t := fun b => Ok b b.

Definition put (b' : t) : M unit := fun _ => Ok tt b'.

End Board.

Import Board.

Declare Scope js_scope.
Delimit Scope js_scope with js.
Notation "'let*' x ':=' m 'in' k" := (bind m (fun x => k))
  (at level 10, x name, m at level 100, k at level 200) : js_scope.
Notation "m ';;' k" := (bind m (fun _ => k))
  (at level 100, k at level 200, right associativity) : js_scope.
Local Open Scope js_scope.

(** [a[i]] on an array: [None] is [undefined]. *)
Definition index {A} (a : list A) (i : Z) : option A :=
  if i <? 0 then None else a !! Z.to_nat i.

(** [a[i] = v] on an array of booleans.  Inside the array the element
    is replaced.  Past its end JavaScript grows the array, and the holes
    left read as [undefined], which the one reader of [next] (the second
    pass of [update]) treats as [false].  A negative key adds a property
    that is no element of the array. *)
Definition store (a : list bool) (i : Z) (v : bool) : list bool :=
  if i <? 0 then a
  else if i <? Z.of_nat (length a) then <[Z.to_nat i := v]> a
  else a ++ replicate (Z.to_nat i - length a) false ++ [v].

(** A loop [for (var i = 0; i < n; i++) body(i)]. *)
Fixpoint forEach {A} (l : list A) (body : A -> M unit) : M unit :=
  match l with
  | [] => ret tt
  | a :: l' => body a ;; forEach l' body
  end.

Definition for_upto (n : Z) (body : Z -> M unit) : M unit :=
  forEach (seqZ 0 n) body.

Module BoardOps.

(** [new Board(width, height)] *)
Definition new (width height : Z) : Board.t :=
  Board.mk width height
    ((fun x => (fun y => Cell.new x y None) <$> seqZ 0 height) <$> seqZ 0 width)
    ((fun _ => (fun _ => false) <$> seqZ 0 height) <$> seqZ 0 width).

(** Reading a property of [this.cells[x][y]]: a [TypeError] when the
    column or the cell is [undefined]. *)
Definition cellAt (x y : Z) : M Cell.t :=
  fun b =>
    match index (cells b) x with
    | None => Throw TypeError b
    | Some col =>
        match index col y with
        | None => Throw TypeError b
        | Some c => Ok c b
        end
    end.

(** The cell object at [(x, y)] replaced by its mutated version. *)
Definition write_cell (x y : Z) (c : Cell.t) (b : Board.t) : Board.t :=
  Board.mk (width b) (height b)
    (alter (fun col => <[Z.to_nat y := c]> col) (Z.to_nat x) (cells b))
    (next b).

(** A method call or field assignment on the object [this.cells[x][y]]. *)
Definition onCell (x y : Z) (f : Cell.t -> Cell.t) : M unit :=
  let* c := cellAt x y in
  let* b := get in
  put (write_cell x y (f c) b).

(** [this.next[x][y] = v] *)
Definition setNext (x y : Z) (v : bool) : M unit :=
  fun b =>
    match index (next b) x with
    | None => Throw TypeError b
    | Some col =>
        Ok tt (Board.mk (width b) (height b) (cells b)
                 (<[Z.to_nat x := store col y v]> (next b)))
    end.

(** [this.next[x][y]] read as a condition. *)
Definition getNext (x y : Z) : M bool :=
  fun b =>
    match index (next b) x with
    | None => Throw TypeError b
    | Some col => Ok (default false (index col y)) b
    end.

(** The eight guarded blocks of [getLivingNeighbors], in the order of
    the source: the guard of each [if], and the position it reads. *)
Definition neighborChecks (width height x y : Z) : list (bool * (Z * Z)) :=
  [ (negb (x =? 0), (x - 1, y));
    (negb (x =? 0) && negb (y =? 0), (x - 1, y - 1));
    (negb (y =? 0), (x, y - 1));
    (negb (x =? width - 1) && negb (y =? 0), (x + 1, y - 1));
    (negb (x =? width - 1), (x + 1, y));
    (negb (x =? width - 1) && negb (y =? height - 1), (x + 1, y + 1));
    (negb (y =? height - 1), (x, y + 1));
    (negb (x =? 0) && negb (y =? height - 1), (x - 1, y + 1)) ].

(** One block after the other: [cell = cells[nx][ny]; if (cell.isAlive)
    aliveNeighbors.push(cell)].  The array holds references to cell
    objects, here their positions. *)
Fixpoint collectAlive (checks : list (bool * (Z * Z)))
    (aliveNeighbors : list (Z * Z)) : M (list (Z * Z)) :=
  match checks with
  | [] => ret aliveNeighbors
  | (guard, (nx, ny)) :: rest =>
      if guard then
        let* cell := cellAt nx ny in
        collectAlive rest
          (if Cell.isAlive cell then aliveNeighbors ++ [(nx, ny)]
           else aliveNeighbors)
      else collectAlive rest aliveNeighbors
  end.

(** The loop [currentCell.color += aliveNeighbors[i].color.substr(i * 2 + 1, 2)]
    from index [i] on. *)
Fixpoint appendChannels (x y : Z) (i : nat) (aliveNeighbors : list (Z * Z))
    : M unit :=
  match aliveNeighbors with
  | [] => ret tt
  | (nx, ny) :: rest =>
      let* n := cellAt nx ny in
      onCell x y (fun c =>
        Cell.set_color
          (Cell.color c ++ substring (i * 2 + 1) 2 (Cell.color n))%string c) ;;
      appendChannels x y (S i) rest
  end.

(** [Board.prototype.getLivingNeighbors].  [currentCell] is read at the
    start: the source binds it there and reads [currentCell.isAlive]
    after the eight blocks, which change nothing, so the outcome is the
    same. *)
Definition getLivingNeighbors (x y : Z) : M Z :=
  let* b := get in
  let* currentCell := cellAt x y in
  let* aliveNeighbors :=
    collectAlive (neighborChecks (width b) (height b) x y) [] in
  let countLiving := Z.of_nat (length aliveNeighbors) in
  (if negb (Cell.isAlive currentCell) && (countLiving =? 3) then
     onCell x y (Cell.set_color "#") ;;
     appendChannels x y 0 aliveNeighbors
   else ret tt) ;;
  ret countLiving.

(** The right-hand side
    [cells[x][y].isAlive && getLivingNeighbors(x, y) === 2 ||
     getLivingNeighbors(x, y) === 3], with its short circuits. *)
Definition nextState (x y : Z) : M bool :=
  let* cell := cellAt x y in
  if Cell.isAlive cell then
    let* n := getLivingNeighbors x y in
    if n =? 2 then ret true
    else let* n' := getLivingNeighbors x y in ret (n' =? 3)
  else
    let* n := getLivingNeighbors x y in ret (n =? 3).

(** First pass of [update]: fill [next].  (The later revision of the file
    names the two loops of [update] [findNext] and [applyNext].) *)
Definition findNext : M unit :=
  let* b := get in
  for_upto (width b) (fun x =>
    for_upto (height b) (fun y =>
      let* v := nextState x y in
      setNext x y v)).

(** Body of the second pass: [cell] is [this.cells[x][y]],
    [aliveNextGen] is [this.next[x][y]]. *)
Definition applyCell (x y : Z) : M unit :=
  let* cell := cellAt x y in
  let* aliveNextGen := getNext x y in
  if Cell.isAlive cell && aliveNextGen then
    onCell x y Cell.mature
  else if Cell.isAlive cell && negb aliveNextGen then
    onCell x y Cell.kill
  else if negb (Cell.isAlive cell) && aliveNextGen then
    onCell x y (Cell.set_isAlive true)
  else ret tt.

(** Second pass of [update]: apply [next] to the cells. *)
Definition applyNext : M unit :=
  let* b := get in
  for_upto (width b) (fun x =>
    for_upto (height b) (fun y => applyCell x y)).

(** [Board.prototype.update] *)
Definition update : M unit :=
  findNext ;; applyNext.

(** [Board.prototype.clear] *)
Definition clear : M unit :=
  let* b := get in
  for_upto (width b) (fun x =>
    for_upto (height b) (fun y => onCell x y Cell.kill)).

(** [Board.prototype.clickCell], with the colour chosen on the page. *)
Definition clickCell (x y : Z) (color : string) : M unit :=
  onCell x y (Cell.toggle color).

End BoardOps.

Import BoardOps.

(** ** Reading the board, and the shape the constructor gives it *)

(** The cell object at [(x, y)], if there is one. *)
Definition cell (b : Board.t) (x y : Z) : option Cell.t :=
  match index (cells b) x with
  | Some col => index col y
  | None => None
  end.

(** The entry of the staging buffer at [(x, y)]. *)
Definition nextAt (b : Board.t) (x y : Z) : option bool :=
  match index (next b) x with
  | Some col => index col y
  | None => None
  end.

Definition inBounds (b : Board.t) (x y : Z) : Prop :=
  0 <= x < width b /\ 0 <= y < height b.

(** What [new Board(width, height)] establishes and no method changes:
    [width] columns of [height] entries in both arrays. *)
Record wf (b : Board.t) : Prop := {
  wf_cells : length (cells b) = Z.to_nat (width b);
  wf_columns : Forall (fun col => length col = Z.to_nat (height b)) (cells b);
  wf_next : length (next b) = Z.to_nat (width b);
  wf_next_columns :
    Forall (fun col => length col = Z.to_nat (height b)) (next b)
}.

Definition isAliveAt (b : Board.t) (p : Z * Z) : bool :=
  match cell b p.1 p.2 with
  | Some c => Cell.isAlive c
  | None => false
  end.

Definition colorAt (b : Board.t) (p : Z * Z) : string :=
  match cell b p.1 p.2 with
  | Some c => Cell.color c
  | None => ""%string
  end.

Definition allDead (b : Board.t) : Prop :=
  forall x y c, cell b x y = Some c -> Cell.isAlive c = false.

(** The positions [getLivingNeighbors(x, y)] reads besides [(x, y)]:
    those whose guard holds, in the order of the source. *)
Definition neighborPositions (b : Board.t) (x y : Z) : list (Z * Z) :=
  snd <$> List.filter fst (neighborChecks (width b) (height b) x y).

(** The contents of [aliveNeighbors] at the end of the eight blocks. *)
Definition livingNeighbors (b : Board.t) (x y : Z) : list (Z * Z) :=
  List.filter (isAliveAt b) (neighborPositions b x y).

Definition livingNeighborCount (b : Board.t) (x y : Z) : Z :=
  Z.of_nat (length (livingNeighbors b x y)).

(** The colour the loop over [aliveNeighbors] builds from [acc], from
    index [i] on. *)
Fixpoint channels (b : Board.t) (i : nat) (refs : list (Z * Z))
    (acc : string) : string :=
  match refs with
  | [] => acc
  | p :: rest =>
      channels b (S i) rest (acc ++ substring (i * 2 + 1) 2 (colorAt b p))%string
  end.

Definition inheritColor (b : Board.t) (x y : Z) : string :=
  channels b 0 (livingNeighbors b x y) "#".

(** The value of [A && n === 2 || n === 3]. *)
Definition aliveNext (alive : bool) (n : Z) : bool :=
  alive && (n =? 2) || (n =? 3).

(** What the first pass does to the cell at [(x, y)] of [b]. *)
Definition pass1_cell (b : Board.t) (x y : Z) (c : Cell.t) : Cell.t :=
  if negb (Cell.isAlive c) && (livingNeighborCount b x y =? 3)
  then Cell.set_color (inheritColor b x y) c
  else c.

(** What the second pass does to a cell whose staged state is [v]. *)
Definition pass2_cell (v : bool) (c : Cell.t) : Cell.t :=
  if Cell.isAlive c && v then Cell.mature c
  else if Cell.isAlive c && negb v then Cell.kill c
  else if negb (Cell.isAlive c) && v then Cell.set_isAlive true c
  else c.

(** Cells already visited by the two nested loops when they are at
    [(x0, y0)]. *)
Definition visited (x0 y0 x y : Z) : Prop :=
  x < x0 \/ (x = x0 /\ y < y0).

(** ** The adjacency and the colours of the specification *)

(** The eight compass directions, from due left and clockwise ([y] grows
    downwards on the canvas). *)
Definition compass : list (Z * Z) :=
  [(-1, 0); (-1, -1); (0, -1); (1, -1); (1, 0); (1, 1); (0, 1); (-1, 1)].

Definition inside (b : Board.t) (p : Z * Z) : bool :=
  (0 <=? p.1) && (p.1 <? width b) && (0 <=? p.2) && (p.2 <? height b).

(** The grid-adjacent positions of [(x, y)] that lie on the board: no
    wrap-around. *)
Definition adjacent (b : Board.t) (x y : Z) : list (Z * Z) :=
  List.filter (inside b) ((fun d => (x + d.1, y + d.2)) <$> compass).

(** The colour channels of a ["#rrggbb"] string. *)
Definition red (c : string) : string := substring 1 2 c.
Definition green (c : string) : string := substring 3 2 c.
Definition blue (c : string) : string := substring 5 2 c.

(** A colour as the page's colour inputs and the constructor give it:
    seven characters. *)
Definition rgb (c : string) : Prop := String.length c = 7%nat.

(** ** Reachable boards *)

Inductive Op : Type :=
| OpUpdate
| OpClickCell (x y : Z) (color : string)
| OpKill (x y : Z)
| OpClear.

Definition runOp (o : Op) : M unit :=
  match o with
  | OpUpdate => update
  | OpClickCell x y color => clickCell x y color
  | OpKill x y => onCell x y Cell.kill
  | OpClear => clear
  end.

Inductive reachable : Board.t -> Prop :=
| reachable_new (width height : Z) : reachable (new width height)
| reachable_step (b : Board.t) (o : Op) :
    reachable b -> reachable (state_of (runOp o b)).

(** The board after a sequence of calls. *)
Definition runOps (os : list Op) (b : Board.t) : Board.t :=
  fold_left (fun b o => state_of (runOp o b)) os b.

(** ** Patterns of living cells *)

(** The living cells of [b] are exactly the positions where [f] holds. *)
Definition hasPattern (b : Board.t) (f : Z -> Z -> bool) : Prop :=
  forall x y c, cell b x y = Some c -> Cell.isAlive c = f x y.

(** One generation on a pattern, with the guards and the expression of
    the source. *)
Definition nextPattern (width height : Z) (f : Z -> Z -> bool)
    (x y : Z) : bool :=
  aliveNext (f x y)
    (Z.of_nat (length (List.filter (fun p => f p.1 p.2)
       (snd <$> List.filter fst (neighborChecks width height x y))))).

(** The set of living cells of [b] is exactly [ps]. *)
Definition aliveSet (b : Board.t) (ps : list (Z * Z)) : Prop :=
  forall x y c, cell b x y = Some c ->
    (Cell.isAlive c = true <-> In (x, y) ps).

Definition inSet (ps : list (Z * Z)) (x y : Z) : bool :=
  existsb (fun p => (p.1 =? x) && (p.2 =? y)) ps.

(** A check of [hasPattern] over the cells of the board. *)
Definition checkPattern (b : Board.t) (f : Z -> Z -> bool) : bool :=
  forallb (fun x =>
    forallb (fun y =>
      match cell b x y with
      | Some c => Bool.eqb (Cell.isAlive c) (f x y)
      | None => true
      end) (seqZ 0 (height b))) (seqZ 0 (width b)).

(** The two phases of the blinker. *)
Definition horizontal : list (Z * Z) := [(1, 2); (2, 2); (3, 2)].
Definition vertical : list (Z * Z) := [(2, 1); (2, 2); (2, 3)].

(** Every dead cell has the maturity of a newborn. *)
Definition deadAreYoung (b : Board.t) : Prop :=
  forall x y c, cell b x y = Some c ->
    Cell.isAlive c = false -> Cell.maturity c = 0.1%float.

(** Every colour on the board is a seven-character colour. *)
Definition rgbColors (b : Board.t) : Prop :=
  forall x y c, cell b x y = Some c -> rgb (Cell.color c).

(** A call whose requested colour, if it has one, is such a colour. *)
Definition rgbOp (o : Op) : Prop :=
  match o with
  | OpClickCell _ _ color => rgb color
  | _ => True
  end.

(** ** Boards used as examples *)

(** Three clicked cells on a 2 x 2 board; the fourth cell has three
    living neighbours. *)
Definition tromino : Board.t :=
  runOps [OpClickCell 0 0 "#112233"; OpClickCell 1 0 "#445566";
          OpClickCell 0 1 "#778899"] (new 2 2).

(** The board after [n] more calls of [update]. *)
Definition generations (n : nat) (b : Board.t) : Board.t :=
  runOps (repeat OpUpdate n) b.

(** A horizontal line of three on a 5 x 5 board. *)
Definition blinker : Board.t :=
  runOps [OpClickCell 1 2 "#ff0000"; OpClickCell 2 2 "#00ff00";
          OpClickCell 3 2 "#0000ff"] (new 5 5).

(** ** Invariants of the two passes *)

(** [s] shows the same living cells as [b], in the same colours. *)
Definition sameLife (b s : Board.t) : Prop :=
  width s = width b /\ height s = height b /\
  forall p, isAliveAt s p = isAliveAt b p /\
            (isAliveAt b p = true -> colorAt s p = colorAt b p).

(** The board [s] the first pass has made of [b] when its loops are at
    [(x0, y0)]. *)
Definition firstPassAt (b : Board.t) (x0 y0 : Z) (s : Board.t) : Prop :=
  wf s /\ width s = width b /\ height s = height b /\
  forall x y c, cell b x y = Some c ->
    (visited x0 y0 x y ->
       cell s x y = Some (pass1_cell b x y c) /\
       nextAt s x y =
         Some (aliveNext (Cell.isAlive c) (livingNeighborCount b x y))) /\
    (~ visited x0 y0 x y -> cell s x y = Some c).

(** The board [s] that a loop applying [f] to every cell has made of [b]
    when it is at [(x0, y0)]. *)
Definition cellwiseAt (f : Z -> Z -> Cell.t -> Cell.t) (b : Board.t)
    (x0 y0 : Z) (s : Board.t) : Prop :=
  wf s /\ width s = width b /\ height s = height b /\ next s = next b /\
  forall x y c, cell b x y = Some c ->
    (visited x0 y0 x y -> cell s x y = Some (f x y c)) /\
    (~ visited x0 y0 x y -> cell s x y = Some c).

(** The staged state the second pass reads for [(x, y)]. *)
Definition staged (b : Board.t) (x y : Z) : bool :=
  default false (nextAt b x y).

(** ** The values a maturity can take *)

(** The maturities the repeated [+= 0.1] runs through from 0.1, in binary64
    arithmetic. *)
Definition ladder : list float :=
  [0.1; 0.2; 0.30000000000000004; 0.4; 0.5; 0.6; 0.7; 0.79999999999999993;
   0.89999999999999991; 0.99999999999999989; 1.0999999999999999]%float.

(** ** The page around the board *)

(** The globals of the script that its handlers read and write: the
    [running] flag, the [board], and the caption of the play/pause button
    ([playPauseBtn.value]).  Drawing, the timer and the colour palette are
    left out; the palette's chosen colour comes with each click. *)
Module App.

Record t : Type := mk {
  running : bool;
  board : Board.t;
  playPauseBtn : string
}.

Definition CELL_SIZE : Z := 15.

(** What a handler leaves behind: it returned, an exception left it, or
    it never returns (a loop without end) and the globals stay as they
    are. *)
Inductive Result : Type :=
| Done (a : t)
| Uncaught (e : Exn) (a : t)
| NoReturn (a : t).

Definition state (r : Result) : t :=
  match r with Done a => a | Uncaught _ a => a | NoReturn a => a end.

(** What [Math.round] makes of the text of an input field: a whole
    number, [NaN] for text that is no number, or an infinity. *)
Inductive Rounded : Type :=
| Whole (z : Z)
| NaN
| PlusInfinity
| MinusInfinity.

(** [n < 1]: false for [NaN]. *)
Definition belowOne (n : Rounded) : bool :=
  match n with
  | Whole z => z <? 1
  | MinusInfinity => true
  | NaN | PlusInfinity => false
  end.

(** The dimension of the arrays the constructor builds for [n]: its loop
    [for (var i = 0; i < n; i++)] runs [n] times for a whole [n] and not
    at all for [NaN], as for 0.  [Board.t] keeps [width] and [height] in
    [Z], so a [NaN] dimension is stored as 0: the methods only compare
    them with loop counters, which no loop reaches then. *)
Definition dimension (n : Rounded) : Z :=
  match n with
  | Whole z => z
  | NaN | PlusInfinity | MinusInfinity => 0
  end.

Definition set_board (b : Board.t) (a : t) : t :=
  mk (running a) b (playPauseBtn a).

(** A call of a method of [board] from a handler. *)
Definition onBoard (m : M unit) (k : t -> t) (a : t) : Result :=
  match m (board a) with
  | Ok _ b => Done (k (set_board b a))
  | Throw e b => Uncaught e (set_board b a)
  end.

(** [function togglePlay()] *)
Definition togglePlay (a : t) : t :=
  let running := negb (running a) in
  mk running (board a) (if running then "Pause" else "Play")%string.

(** [function pause()] *)
Definition pause (a : t) : t :=
  if running a then togglePlay a else a.

(** [function clearBoard()] *)
Definition clearBoard (a : t) : Result :=
  onBoard clear pause a.

(** [function createBoard()]; [width] and [height] are the values
    [Math.round] made of the two input fields.  Below 1 the handler
    alerts and returns.  Otherwise it calls [new Board(width, height)]:
    with an infinite [width] the outer loop of the constructor has no end,
    and with a whole [width] and an infinite [height] the inner loop has
    none; with [NaN] for [width] the outer loop does not run at all,
    whatever [height] is. *)
Definition createBoard (width height : Rounded) (a : t) : Result :=
  if belowOne width || belowOne height then Done a
  else
    match width, height with
    | PlusInfinity, _ => NoReturn a
    | Whole _, PlusInfinity => NoReturn a
    | _, _ =>
        Done (pause (set_board (new (dimension width) (dimension height)) a))
    end.

(** [gameLoop], the function the timer calls. *)
Definition gameLoop (a : t) : Result :=
  if running a then onBoard update (fun a => a) a else Done a.

(** The [mousedown] handler of the canvas: [px] and [py] are
    [event.x - canvas.offsetLeft] and [event.y - canvas.offsetTop], whole
    pixels, and [Math.floor(px / CELL_SIZE)] is then the quotient rounded
    down. *)
Definition mousedown (px py : Z) (color : string) (a : t) : Result :=
  onBoard (clickCell (px / CELL_SIZE) (py / CELL_SIZE) color) (fun a => a) a.

(** What the page can do to the globals. *)
Inductive Event : Type :=
| Tick
| PlayPause
| ClearBoard
| CreateBoard (width height : Rounded)
| MouseDown (px py : Z) (color : string).

Definition handle (e : Event) (a : t) : Result :=
  match e with
  | Tick => gameLoop a
  | PlayPause => Done (togglePlay a)
  | ClearBoard => clearBoard a
  | CreateBoard width height => createBoard width height a
  | MouseDown px py color => mousedown px py color a
  end.

(** The globals as the script sets them up, [running = false] and
    [board = new Board(50, 30)], and after any events. *)
Inductive reachable (caption : string) : t -> Prop :=
| reachable_start : reachable caption (mk false (new 50 30) caption)
| reachable_handle (a : t) (e : Event) :
    reachable caption a -> reachable caption (state (handle e a)).

(** The button says what a press will do. *)
Definition captionFits (a : t) : Prop :=
  playPauseBtn a = (if running a then "Pause" else "Play")%string.

End App.

(** ** The first version of the script: life without colour *)

(** The earliest of the three versions of the script kept in the
    repository: a cell is its position and [isAlive], a click flips
    [isAlive], and the second pass of [update] copies the staging buffer
    into the cells.  Its [getLivingNeighbors] counts instead of collecting,
    and starts its scan at the right-hand neighbour. *)
Module Plain.

Record Cell : Type := mkCell {
  x : Z;
  y : Z;
  isAlive : bool
}.

Record Board : Type := mkBoard {
  width : Z;
  height : Z;
  cells : list (list Cell);
  next : list (list bool)
}.

Inductive Outcome (A : Type) : Type :=
| Ok (a : A) (b : Board)
| Throw (e : Exn) (b : Board).
Arguments Ok {A} a b.
Arguments Throw {A} e b.

Definition state_of {A} (o : Outcome A) : Board :=
  match o with Ok _ b => b | Throw _ b => b end.

Definition M (A : Type) : Type := Board -> Outcome A.

Definition ret {A} (a : A) : M A := fun b => Ok a b.

Definition bind {A B} (m : M A) (k : A -> M B) : M B :=
  fun b => match m b with
           | Ok a b' => k a b'
           | Throw e b' => Throw e b'
           end.

Definition get : M Board := fun b => Ok b b.

Definition put (b' : Board) : M unit := fun _ => Ok tt b'.

Declare Scope plain_scope.
Notation "'let*' x ':=' m 'in' k" := (bind m (fun x => k))
  (at level 10, x name, m at level 100, k at level 200) : plain_scope.
Notation "m ';;' k" := (bind m (fun _ => k))
  (at level 100, k at level 200, right associativity) : plain_scope.
Local Open Scope plain_scope.

Fixpoint forEach {A} (l : list A) (body : A -> M unit) : M unit :=
  match l with
  | [] => ret tt
  | a :: l' => body a ;; forEach l' body
  end.

Definition for_upto (n : Z) (body : Z -> M unit) : M unit :=
  forEach (seqZ 0 n) body.

(** [function Cell (x, y)] *)
Definition newCell (x y : Z) : Cell := mkCell x y false.

(** [Cell.prototype.toggle]: [this.isAlive = !this.isAlive] *)
Definition toggle (c : Cell) : Cell :=
  mkCell (x c) (y c) (negb (isAlive c)).

Definition set_isAlive (v : bool) (c : Cell) : Cell :=
  mkCell (x c) (y c) v.

(** [new Board(width, height)] *)
Definition new (width height : Z) : Board :=
  mkBoard width height
    ((fun x => (fun y => newCell x y) <$> seqZ 0 height) <$> seqZ 0 width)
    ((fun _ => (fun _ => false) <$> seqZ 0 height) <$> seqZ 0 width).

Definition cellAt (x y : Z) : M Cell :=
  fun b =>
    match index (cells b) x with
    | None => Throw TypeError b
    | Some col =>
        match index col y with
        | None => Throw TypeError b
        | Some c => Ok c b
        end
    end.

Definition write_cell (x y : Z) (c : Cell) (b : Board) : Board :=
  mkBoard (width b) (height b)
    (alter (fun col => <[Z.to_nat y := c]> col) (Z.to_nat x) (cells b))
    (next b).

Definition onCell (x y : Z) (f : Cell -> Cell) : M unit :=
  let* c := cellAt x y in
  let* b := get in
  put (write_cell x y (f c) b).

(** [this.next[x][y] = v] *)
Definition setNext (x y : Z) (v : bool) : M unit :=
  fun b =>
    match index (next b) x with
    | None => Throw TypeError b
    | Some col =>
        Ok tt (mkBoard (width b) (height b) (cells b)
                 (<[Z.to_nat x := store col y v]> (next b)))
    end.

(** [this.next[x][y]] read as a value to store in [isAlive]; a hole reads
    as [undefined], which every reader of [isAlive] treats as [false]. *)
Definition getNext (x y : Z) : M bool :=
  fun b =>
    match index (next b) x with
    | None => Throw TypeError b
    | Some col => Ok (default false (index col y)) b
    end.

(** The eight guarded blocks of this version's [getLivingNeighbors], in
    its order: right, bottom right, bottom, bottom left, left, top left,
    top, top right. *)
Definition neighborChecks (width height x y : Z) : list (bool * (Z * Z)) :=
  [ (negb (x =? width - 1), (x + 1, y));
    (negb (x =? width - 1) && negb (y =? height - 1), (x + 1, y + 1));
    (negb (y =? height - 1), (x, y + 1));
    (negb (x =? 0) && negb (y =? height - 1), (x - 1, y + 1));
    (negb (x =? 0), (x - 1, y));
    (negb (x =? 0) && negb (y =? 0), (x - 1, y - 1));
    (negb (y =? 0), (x, y - 1));
    (negb (x =? width - 1) && negb (y =? 0), (x + 1, y - 1)) ].

(** One block after the other: [if (cells[nx][ny].isAlive) count++]. *)
Fixpoint countAlive (checks : list (bool * (Z * Z))) (count : Z) : M Z :=
  match checks with
  | [] => ret count
  | (guard, (nx, ny)) :: rest =>
      if guard then
        let* cell := cellAt nx ny in
        countAlive rest (if isAlive cell then count + 1 else count)
      else countAlive rest count
  end.

(** [Board.prototype.getLivingNeighbors] *)
Definition getLivingNeighbors (x y : Z) : M Z :=
  let* b := get in
  countAlive (neighborChecks (width b) (height b) x y) 0.

(** The right-hand side of the assignment in the first loop of [update],
    the same expression as in the later versions. *)
Definition nextState (x y : Z) : M bool :=
  let* cell := cellAt x y in
  if isAlive cell then
    let* n := getLivingNeighbors x y in
    if n =? 2 then ret true
    else let* n' := getLivingNeighbors x y in ret (n' =? 3)
  else
    let* n := getLivingNeighbors x y in ret (n =? 3).

(** [this.cells[x][y].isAlive = this.next[x][y]] *)
Definition applyCell (x y : Z) : M unit :=
  let* cell := cellAt x y in
  let* v := getNext x y in
  onCell x y (set_isAlive v).

(** [Board.prototype.update] *)
Definition update : M unit :=
  (let* b := get in
   for_upto (width b) (fun x =>
     for_upto (height b) (fun y =>
       let* v := nextState x y in
       setNext x y v))) ;;
  (let* b := get in
   for_upto (width b) (fun x =>
     for_upto (height b) (fun y => applyCell x y))).

(** [Board.prototype.clear]: [this.cells[x][y].isAlive = false] *)
Definition clear : M unit :=
  let* b := get in
  for_upto (width b) (fun x =>
    for_upto (height b) (fun y => onCell x y (set_isAlive false))).

(** [Board.prototype.clickCell] *)
Definition clickCell (x y : Z) : M unit :=
  onCell x y toggle.

(** Reading the board. *)
Definition cell (b : Board) (x y : Z) : option Cell :=
  match index (cells b) x with
  | Some col => index col y
  | None => None
  end.

Definition nextAt (b : Board) (x y : Z) : option bool :=
  match index (next b) x with
  | Some col => index col y
  | None => None
  end.

Definition inBounds (b : Board) (x y : Z) : Prop :=
  0 <= x < width b /\ 0 <= y < height b.

Record wf (b : Board) : Prop := {
  wf_cells : length (cells b) = Z.to_nat (width b);
  wf_columns : Forall (fun col => length col = Z.to_nat (height b)) (cells b);
  wf_next : length (next b) = Z.to_nat (width b);
  wf_next_columns :
    Forall (fun col => length col = Z.to_nat (height b)) (next b)
}.

Definition hasPattern (b : Board) (f : Z -> Z -> bool) : Prop :=
  forall x y c, cell b x y = Some c -> isAlive c = f x y.

(** The count [getLivingNeighbors] returns on a pattern. *)
Definition countOn (f : Z -> Z -> bool) (checks : list (bool * (Z * Z)))
    : Z :=
  Z.of_nat (length (List.filter (fun p => f p.1 p.2)
                      (snd <$> List.filter fst checks))).

(** The loops of [update] at [(x0, y0)]: first pass, then second. *)
Definition firstPassAt (f : Z -> Z -> bool) (b : Board) (x0 y0 : Z)
    (s : Board) : Prop :=
  wf s /\ width s = width b /\ height s = height b /\ cells s = cells b /\
  forall x y, inBounds b x y -> visited x0 y0 x y ->
    nextAt s x y =
      Some (aliveNext (f x y)
              (countOn f (neighborChecks (width b) (height b) x y))).

Definition cellwiseAt (g : Z -> Z -> Cell -> Cell) (b : Board) (x0 y0 : Z)
    (s : Board) : Prop :=
  wf s /\ width s = width b /\ height s = height b /\ next s = next b /\
  forall x y c, cell b x y = Some c ->
    (visited x0 y0 x y -> cell s x y = Some (g x y c)) /\
    (~ visited x0 y0 x y -> cell s x y = Some c).

End Plain.

(** Case analysis on the comparisons of a goal, closing the impossible
    cases by arithmetic. *)
Ltac settle_bounds :=
  repeat match goal with
    | |- context [?a <=? ?b] => destruct (Z.leb_spec a b); try lia
    | |- context [?a <? ?b] => destruct (Z.ltb_spec a b); try lia
    end.

(** ** Arrays *)

Lemma index_Some {A} (a : list A) (i : Z) (v : A) :
  index a i = Some v <-> 0 <= i /\ a !! Z.to_nat i = Some v.
Proof.
  unfold index. destruct (Z.ltb_spec i 0); split.
  - discriminate.
  - intros [? _]. lia.
  - auto.
  - intros [_ ?]. assumption.
Qed.

Lemma index_inside {A} (a : list A) (i : Z) :
  0 <= i < Z.of_nat (length a) -> exists v, index a i = Some v.
Proof.
  intros Hi. destruct (lookup_lt_is_Some_2 a (Z.to_nat i)) as [v Hv]; [lia|].
  exists v. apply index_Some. split; [lia | assumption].
Qed.

Lemma index_outside {A} (a : list A) (i : Z) :
  ~ (0 <= i < Z.of_nat (length a)) -> index a i = None.
Proof.
  intros Hi. unfold index. destruct (Z.ltb_spec i 0); [reflexivity|].
  apply lookup_ge_None_2. lia.
Qed.

Lemma index_length {A} (a : list A) (i : Z) (v : A) :
  index a i = Some v -> 0 <= i < Z.of_nat (length a).
Proof.
  intros [Hi Hv]%index_Some. apply lookup_lt_Some in Hv. lia.
Qed.

Lemma Forall_filter_bool {A} (P : A -> Prop) (f : A -> bool) (l : list A) :
  Forall P l -> Forall P (List.filter f l).
Proof.
  induction 1 as [|a l Ha _ IH]; simpl; [constructor|].
  destruct (f a); [constructor|]; assumption.
Qed.

(** ** Cells of a well-formed board *)

Lemma cell_Some (b : Board.t) (x y : Z) (c : Cell.t) :
  cell b x y = Some c <->
  exists col, index (cells b) x = Some col /\ index col y = Some c.
Proof.
  unfold cell. destruct (index (cells b) x) as [col|]; split.
  - intros H. exists col. auto.
  - intros (col' & [= <-] & H). assumption.
  - discriminate.
  - intros (col' & [=] & _).
Qed.

Lemma cell_inBounds (b : Board.t) (x y : Z) (c : Cell.t) :
  wf b -> cell b x y = Some c -> inBounds b x y.
Proof.
  intros Hwf (col & Hcol & Hc)%cell_Some.
  pose proof (index_length _ _ _ Hcol) as Hx.
  pose proof (index_length _ _ _ Hc) as Hy.
  apply index_Some in Hcol as [_ Hcol].
  pose proof (wf_columns b Hwf) as Hall.
  rewrite Forall_lookup in Hall. specialize (Hall _ _ Hcol). simpl in Hall.
  rewrite (wf_cells b Hwf) in Hx. unfold inBounds. lia.
Qed.

Lemma inBounds_cell (b : Board.t) (x y : Z) :
  wf b -> inBounds b x y -> exists c, cell b x y = Some c.
Proof.
  intros Hwf [Hx Hy].
  destruct (index_inside (cells b) x) as [col Hcol].
  { rewrite (wf_cells b Hwf). lia. }
  destruct (index_inside col y) as [c Hc].
  { pose proof (wf_columns b Hwf) as Hall. rewrite Forall_lookup in Hall.
    apply index_Some in Hcol as [_ Hcol].
    specialize (Hall _ _ Hcol). simpl in Hall. lia. }
  exists c. apply cell_Some. eauto.
Qed.

Lemma outOfBounds_cell (b : Board.t) (x y : Z) :
  wf b -> ~ inBounds b x y -> cell b x y = None.
Proof.
  intros Hwf Hout. destruct (cell b x y) as [c|] eqn:Hc; [|reflexivity].
  exfalso. apply Hout. eapply cell_inBounds; eassumption.
Qed.

Lemma inBounds_nextAt (b : Board.t) (x y : Z) :
  wf b -> inBounds b x y -> exists v, nextAt b x y = Some v.
Proof.
  intros Hwf [Hx Hy]. unfold nextAt.
  destruct (index_inside (next b) x) as [col Hcol].
  { rewrite (wf_next b Hwf). lia. }
  rewrite Hcol. apply index_inside.
  pose proof (wf_next_columns b Hwf) as Hall. rewrite Forall_lookup in Hall.
  apply index_Some in Hcol as [_ Hcol].
  specialize (Hall _ _ Hcol). simpl in Hall. lia.
Qed.

Lemma cell_write_cell (b : Board.t) (x y x' y' : Z) (c0 c : Cell.t) :
  cell b x y = Some c0 ->
  cell (write_cell x y c b) x' y' =
    if decide (x' = x /\ y' = y) then Some c else cell b x' y'.
Proof.
  intros (col & Hcol & Hc0)%cell_Some.
  pose proof (index_length _ _ _ Hcol) as Hx.
  pose proof (index_length _ _ _ Hc0) as Hy.
  apply index_Some in Hcol as [_ Hcol].
  unfold cell at 1, write_cell, index. simpl.
  destruct (Z.ltb_spec x' 0) as [Hneg|Hpos].
  { rewrite decide_False by lia. unfold cell, index.
    destruct (Z.ltb_spec x' 0); [reflexivity | lia]. }
  destruct (decide (Z.to_nat x' = Z.to_nat x)) as [Heq|Hne].
  - rewrite Heq, list_lookup_alter_eq, Hcol. simpl.
    assert (x' = x) as -> by lia.
    destruct (Z.ltb_spec y' 0) as [Hyneg|Hypos].
    { rewrite decide_False by lia. unfold cell, index.
      destruct (Z.ltb_spec x 0); [lia|]. rewrite Hcol.
      destruct (Z.ltb_spec y' 0); [reflexivity | lia]. }
    destruct (decide (Z.to_nat y' = Z.to_nat y)) as [Hyeq|Hyne].
    + rewrite Hyeq, list_lookup_insert_eq by lia.
      rewrite decide_True by lia. reflexivity.
    + rewrite list_lookup_insert_ne by congruence.
      rewrite decide_False by lia. unfold cell, index.
      destruct (Z.ltb_spec x 0); [lia|]. rewrite Hcol.
      destruct (Z.ltb_spec y' 0); [lia | reflexivity].
  - rewrite list_lookup_alter_ne by congruence.
    rewrite decide_False by lia. unfold cell, index.
    destruct (Z.ltb_spec x' 0); [lia | reflexivity].
Qed.

Lemma cell_write_cell_same (b : Board.t) (x y : Z) (c0 c : Cell.t) :
  cell b x y = Some c0 -> cell (write_cell x y c b) x y = Some c.
Proof.
  intros H. rewrite (cell_write_cell _ _ _ _ _ _ _ H).
  rewrite decide_True by auto. reflexivity.
Qed.

Lemma cell_write_cell_other (b : Board.t) (x y x' y' : Z) (c0 c : Cell.t) :
  cell b x y = Some c0 -> (x', y') <> (x, y) ->
  cell (write_cell x y c b) x' y' = cell b x' y'.
Proof.
  intros H Hne. rewrite (cell_write_cell _ _ _ _ _ _ _ H).
  rewrite decide_False; [reflexivity|]. intros [-> ->]. congruence.
Qed.

Lemma wf_write_cell (b : Board.t) (x y : Z) (c : Cell.t) :
  wf b -> wf (write_cell x y c b).
Proof.
  intros [H1 H2 H3 H4]. split; simpl; try assumption.
  - rewrite length_alter. assumption.
  - rewrite Forall_lookup in H2 |- *. intros i col Hi.
    destruct (decide (i = Z.to_nat x)) as [->|Hne].
    + rewrite list_lookup_alter_eq in Hi.
      destruct (cells b !! Z.to_nat x) as [col0|] eqn:E; [|discriminate].
      simpl in Hi. injection Hi as <-. rewrite length_insert. eauto.
    + rewrite list_lookup_alter_ne in Hi by congruence. eauto.
Qed.

Lemma write_cell_write_cell (b : Board.t) (x y : Z) (c1 c2 : Cell.t) :
  write_cell x y c2 (write_cell x y c1 b) = write_cell x y c2 b.
Proof.
  unfold write_cell. simpl. f_equal.
  rewrite list_alter_alter_eq. apply list_alter_ext; [|reflexivity].
  intros col _. simpl. apply list_insert_insert_eq.
Qed.

Lemma cellAt_Some (b : Board.t) (x y : Z) (c : Cell.t) :
  cell b x y = Some c -> cellAt x y b = Ok c b.
Proof.
  unfold cell, cellAt. destruct (index (cells b) x) as [col|]; [|discriminate].
  intros ->. reflexivity.
Qed.

Lemma cellAt_None (b : Board.t) (x y : Z) :
  cell b x y = None -> cellAt x y b = Throw TypeError b.
Proof.
  unfold cell, cellAt. destruct (index (cells b) x) as [col|]; [|reflexivity].
  intros ->. reflexivity.
Qed.

Lemma onCell_Some (b : Board.t) (x y : Z) (f : Cell.t -> Cell.t) (c : Cell.t) :
  cell b x y = Some c -> onCell x y f b = Ok tt (write_cell x y (f c) b).
Proof.
  intros H. unfold onCell, bind. rewrite (cellAt_Some _ _ _ _ H). reflexivity.
Qed.

Lemma onCell_None (b : Board.t) (x y : Z) (f : Cell.t -> Cell.t) :
  cell b x y = None -> onCell x y f b = Throw TypeError b.
Proof.
  intros H. unfold onCell, bind. rewrite (cellAt_None _ _ _ H). reflexivity.
Qed.

Lemma write_cell_id (b : Board.t) (x y : Z) (c : Cell.t) :
  cell b x y = Some c -> write_cell x y c b = b.
Proof.
  intros (col & Hcol & Hc)%cell_Some.
  apply index_Some in Hcol as [_ Hcol]. apply index_Some in Hc as [_ Hc].
  destruct b as [w h cs nx]. unfold write_cell. simpl in *. f_equal.
  rewrite <- (list_alter_id id cs (Z.to_nat x)) at 2 by reflexivity.
  apply list_alter_ext; [|reflexivity].
  intros col' Hcol'. rewrite Hcol in Hcol'. injection Hcol' as <-.
  apply list_insert_id. assumption.
Qed.

(** ** [getLivingNeighbors] *)

Lemma neighborPositions_inBounds (b : Board.t) (x y : Z) :
  inBounds b x y ->
  Forall (fun p => inBounds b p.1 p.2 /\ p <> (x, y)) (neighborPositions b x y).
Proof.
  intros [Hx Hy]. unfold neighborPositions, neighborChecks, inBounds.
  destruct (Z.eqb_spec x 0), (Z.eqb_spec y 0),
    (Z.eqb_spec x (width b - 1)), (Z.eqb_spec y (height b - 1));
    simpl;
    repeat (apply Forall_cons_2;
            [split; [simpl; lia | intros [=]; lia]|]);
    apply Forall_nil_2.
Qed.

Lemma collectAlive_spec (b : Board.t) (checks : list (bool * (Z * Z)))
    (acc : list (Z * Z)) :
  Forall (fun p => exists c, cell b p.1 p.2 = Some c)
         (snd <$> List.filter fst checks) ->
  collectAlive checks acc b =
    Ok (acc ++ List.filter (isAliveAt b) (snd <$> List.filter fst checks)) b.
Proof.
  revert acc. induction checks as [|[guard [nx ny]] rest IH]; intros acc Hall.
  - simpl. unfold ret. rewrite app_nil_r. reflexivity.
  - simpl in *. destruct guard; simpl in *.
    + apply Forall_cons in Hall as [[c Hc] Hall]. simpl in Hc.
      unfold bind. rewrite (cellAt_Some _ _ _ _ Hc).
      assert (isAliveAt b (nx, ny) = Cell.isAlive c) as ->.
      { unfold isAliveAt. simpl. rewrite Hc. reflexivity. }
      rewrite (IH _ Hall). destruct (Cell.isAlive c).
      * rewrite <- app_assoc. reflexivity.
      * reflexivity.
    + apply IH. assumption.
Qed.

Lemma appendChannels_spec (b : Board.t) (x y : Z) (c0 : Cell.t)
    (refs : list (Z * Z)) :
  cell b x y = Some c0 ->
  Forall (fun p => (exists c, cell b p.1 p.2 = Some c) /\ p <> (x, y)) refs ->
  forall (i : nat) (acc : string),
    appendChannels x y i refs (write_cell x y (Cell.set_color acc c0) b) =
    Ok tt (write_cell x y (Cell.set_color (channels b i refs acc) c0) b).
Proof.
  intros H0 Hall. induction Hall as [|[nx ny] rest [[n Hn] Hne] _ IH];
    intros i acc.
  - reflexivity.
  - simpl in *. unfold bind at 1.
    assert (cell (write_cell x y (Cell.set_color acc c0) b) nx ny = Some n)
      as Hn'.
    { rewrite (cell_write_cell_other _ _ _ _ _ _ _ H0 Hne). assumption. }
    rewrite (cellAt_Some _ _ _ _ Hn'). unfold bind.
    rewrite (onCell_Some _ _ _ _ _ (cell_write_cell_same _ _ _ _ _ H0)).
    rewrite write_cell_write_cell.
    unfold colorAt. simpl. rewrite Hn. apply IH.
Qed.

Lemma getLivingNeighbors_spec (b : Board.t) (x y : Z) (c : Cell.t) :
  wf b -> cell b x y = Some c ->
  getLivingNeighbors x y b =
    Ok (livingNeighborCount b x y) (write_cell x y (pass1_cell b x y c) b).
Proof.
  intros Hwf Hc. pose proof (cell_inBounds _ _ _ _ Hwf Hc) as Hin.
  pose proof (neighborPositions_inBounds _ _ _ Hin) as Hpos.
  assert (Forall (fun p => (exists c, cell b p.1 p.2 = Some c) /\ p <> (x, y))
            (neighborPositions b x y)) as Hpos'.
  { eapply Forall_impl; [exact Hpos|]. intros p [Hp Hne]. split; [|exact Hne].
    apply inBounds_cell; assumption. }
  assert (collectAlive (neighborChecks (width b) (height b) x y) [] b =
          Ok (livingNeighbors b x y) b) as Hcollect.
  { rewrite collectAlive_spec; [reflexivity|].
    eapply Forall_impl; [exact Hpos'|]. intros p [Hp _]. exact Hp. }
  unfold getLivingNeighbors, bind, get. rewrite (cellAt_Some _ _ _ _ Hc).
  rewrite Hcollect. fold (livingNeighborCount b x y). unfold pass1_cell.
  destruct (negb (Cell.isAlive c) && (livingNeighborCount b x y =? 3)).
  - rewrite (onCell_Some _ _ _ _ _ Hc).
    rewrite (appendChannels_spec b x y c (livingNeighbors b x y) Hc).
    + reflexivity.
    + unfold livingNeighbors. apply Forall_filter_bool. exact Hpos'.
  - unfold ret. rewrite (write_cell_id _ _ _ _ Hc). reflexivity.
Qed.

Lemma livingNeighborCount_range (b : Board.t) (x y : Z) :
  0 <= livingNeighborCount b x y <= 8.
Proof.
  unfold livingNeighborCount, livingNeighbors.
  pose proof (List.filter_length_le (isAliveAt b) (neighborPositions b x y)) as H1.
  assert (length (neighborPositions b x y) <= 8)%nat as H2.
  { unfold neighborPositions. rewrite length_fmap.
    etransitivity; [apply List.filter_length_le|]. reflexivity. }
  lia.
Qed.

Lemma nextState_spec (b : Board.t) (x y : Z) (c : Cell.t) :
  wf b -> cell b x y = Some c ->
  nextState x y b =
    Ok (aliveNext (Cell.isAlive c) (livingNeighborCount b x y))
       (write_cell x y (pass1_cell b x y c) b).
Proof.
  intros Hwf Hc. unfold nextState, bind. rewrite (cellAt_Some _ _ _ _ Hc).
  cbv beta iota. unfold aliveNext.
  destruct (Cell.isAlive c) eqn:Ha; cbv beta iota;
    rewrite (getLivingNeighbors_spec _ _ _ _ Hwf Hc); [|reflexivity].
  assert (pass1_cell b x y c = c) as ->.
  { unfold pass1_cell. rewrite Ha. reflexivity. }
  rewrite (write_cell_id _ _ _ _ Hc).
  destruct (livingNeighborCount b x y =? 2) eqn:E2; [reflexivity|].
  rewrite (getLivingNeighbors_spec _ _ _ _ Hwf Hc).
  assert (pass1_cell b x y c = c) as ->.
  { unfold pass1_cell. rewrite Ha. reflexivity. }
  rewrite (write_cell_id _ _ _ _ Hc). reflexivity.
Qed.

(** ** Loops *)

Lemma forEach_seqZ_inv (I : Z -> Board.t -> Prop) (body : Z -> M unit)
    (n : nat) :
  forall (m : Z) (b : Board.t),
    I m b ->
    (forall i s, m <= i < m + Z.of_nat n -> I i s ->
       exists s', body i s = Ok tt s' /\ I (i + 1) s') ->
    exists b', forEach (seqZ m (Z.of_nat n)) body b = Ok tt b' /\
               I (m + Z.of_nat n) b'.
Proof.
  induction n as [|n IH]; intros m b Hm Hstep.
  - exists b. split; [reflexivity|]. replace (m + Z.of_nat 0) with m by lia.
    assumption.
  - rewrite seqZ_cons by lia. simpl forEach. unfold bind.
    destruct (Hstep m b) as (s' & -> & Hs'); [lia | assumption |].
    replace (Z.pred (Z.of_nat (S n))) with (Z.of_nat n) by lia.
    destruct (IH (Z.succ m) s') as (b' & Hb' & HI).
    + replace (Z.succ m) with (m + 1) by lia. assumption.
    + intros i s Hi. apply Hstep. lia.
    + exists b'. split; [assumption|].
      replace (m + Z.of_nat (S n)) with (Z.succ m + Z.of_nat n) by lia.
      assumption.
Qed.

Lemma for_upto_inv (I : Z -> Board.t -> Prop) (n : Z) (body : Z -> M unit)
    (b : Board.t) :
  I 0 b ->
  (forall i s, 0 <= i < n -> I i s ->
     exists s', body i s = Ok tt s' /\ I (i + 1) s') ->
  exists b', for_upto n body b = Ok tt b' /\ I (Z.max 0 n) b'.
Proof.
  intros H0 Hstep. unfold for_upto.
  assert (seqZ 0 n = seqZ 0 (Z.of_nat (Z.to_nat n))) as ->.
  { unfold seqZ. rewrite Nat2Z.id. reflexivity. }
  replace (Z.max 0 n) with (0 + Z.of_nat (Z.to_nat n)) by lia.
  apply forEach_seqZ_inv; [assumption|].
  intros i s Hi. apply Hstep. lia.
Qed.

Lemma for_grid_inv (J : Z -> Z -> Board.t -> Prop) (w h : Z)
    (body : Z -> Z -> M unit) (b : Board.t) :
  J 0 0 b ->
  (forall x y s, 0 <= x < w -> 0 <= y < h -> J x y s ->
     exists s', body x y s = Ok tt s' /\ J x (y + 1) s') ->
  (forall x s, 0 <= x < w -> J x (Z.max 0 h) s -> J (x + 1) 0 s) ->
  exists b', for_upto w (fun x => for_upto h (body x)) b = Ok tt b' /\
             J (Z.max 0 w) 0 b'.
Proof.
  intros H0 Hstep Hrow.
  apply (for_upto_inv (fun x s => J x 0 s)); [assumption|].
  intros x s Hx HJ.
  destruct (for_upto_inv (fun y s => J x y s) h (body x) s) as (s' & Hs' & HJ').
  - assumption.
  - intros y s0 Hy. apply Hstep; assumption.
  - exists s'. split; [assumption|]. apply Hrow; assumption.
Qed.

Lemma visited_next (x0 y0 x y : Z) :
  visited x0 (y0 + 1) x y <-> visited x0 y0 x y \/ (x = x0 /\ y = y0).
Proof. unfold visited. lia. Qed.

Lemma visited_dec (x0 y0 x y : Z) :
  visited x0 y0 x y \/ ~ visited x0 y0 x y.
Proof. unfold visited. lia. Qed.

(** ** The staging buffer *)

Lemma setNext_spec (b : Board.t) (x y : Z) (v : bool) :
  wf b -> inBounds b x y ->
  exists nx,
    setNext x y v b = Ok tt (Board.mk (width b) (height b) (cells b) nx) /\
    wf (Board.mk (width b) (height b) (cells b) nx) /\
    forall x' y',
      nextAt (Board.mk (width b) (height b) (cells b) nx) x' y' =
        if decide (x' = x /\ y' = y) then Some v else nextAt b x' y'.
Proof.
  intros Hwf [Hx Hy].
  destruct (index_inside (next b) x) as [col Hcol].
  { rewrite (wf_next b Hwf). lia. }
  pose proof Hcol as [_ Hcol']%index_Some.
  assert (length col = Z.to_nat (height b)) as Hlen.
  { pose proof (wf_next_columns b Hwf) as Hall. rewrite Forall_lookup in Hall.
    apply (Hall _ _ Hcol'). }
  assert (store col y v = <[Z.to_nat y := v]> col) as Hstore.
  { unfold store. destruct (Z.ltb_spec y 0); [lia|].
    destruct (Z.ltb_spec y (Z.of_nat (length col))); [reflexivity | lia]. }
  exists (<[Z.to_nat x := store col y v]> (next b)).
  unfold setNext. rewrite Hcol. split; [reflexivity|]. split.
  - destruct Hwf as [H1 H2 H3 H4]. split; simpl; try assumption.
    + rewrite length_insert. assumption.
    + apply Forall_insert; [assumption|].
      rewrite Hstore, length_insert. assumption.
  - intros x' y'. unfold nextAt, index. simpl.
    destruct (Z.ltb_spec x' 0) as [Hneg|Hpos].
    { rewrite decide_False by lia. reflexivity. }
    destruct (decide (Z.to_nat x' = Z.to_nat x)) as [Heq|Hne].
    + assert (x' = x) as -> by lia.
      rewrite list_lookup_insert_eq by (rewrite (wf_next b Hwf); lia).
      rewrite Hcol', Hstore.
      destruct (Z.ltb_spec y' 0) as [Hyneg|Hypos].
      { rewrite decide_False by lia. reflexivity. }
      destruct (decide (Z.to_nat y' = Z.to_nat y)) as [Hyeq|Hyne].
      * rewrite Hyeq, list_lookup_insert_eq by lia.
        rewrite decide_True by lia. reflexivity.
      * rewrite list_lookup_insert_ne by congruence.
        rewrite decide_False by lia. reflexivity.
    + rewrite list_lookup_insert_ne by congruence.
      rewrite decide_False by lia. reflexivity.
Qed.

(** ** The first pass *)

Lemma pass1_cell_isAlive (b : Board.t) (x y : Z) (c : Cell.t) :
  Cell.isAlive (pass1_cell b x y c) = Cell.isAlive c.
Proof.
  unfold pass1_cell.
  destruct (negb (Cell.isAlive c) && (livingNeighborCount b x y =? 3));
    reflexivity.
Qed.

Lemma pass1_cell_maturity (b : Board.t) (x y : Z) (c : Cell.t) :
  Cell.maturity (pass1_cell b x y c) = Cell.maturity c.
Proof.
  unfold pass1_cell.
  destruct (negb (Cell.isAlive c) && (livingNeighborCount b x y =? 3));
    reflexivity.
Qed.

Lemma pass1_cell_alive (b : Board.t) (x y : Z) (c : Cell.t) :
  Cell.isAlive c = true -> pass1_cell b x y c = c.
Proof. intros H. unfold pass1_cell. rewrite H. reflexivity. Qed.

Lemma firstPassAt_sameLife (b s : Board.t) (x0 y0 : Z) :
  wf b -> firstPassAt b x0 y0 s -> sameLife b s.
Proof.
  intros Hwf (Hwfs & Hw & Hh & Hcells). split; [assumption|].
  split; [assumption|]. intros [x y]. unfold isAliveAt, colorAt. simpl.
  destruct (cell b x y) as [c|] eqn:Hc.
  - destruct (Hcells _ _ _ Hc) as [Hv Hnv].
    destruct (visited_dec x0 y0 x y) as [V|V].
    + destruct (Hv V) as [-> _]. rewrite pass1_cell_isAlive.
      split; [reflexivity|]. intros Ha. rewrite pass1_cell_alive by assumption.
      reflexivity.
    + rewrite (Hnv V). auto.
  - rewrite outOfBounds_cell; [auto | assumption |].
    intros Hin. destruct (inBounds_cell b x y Hwf) as [c Hc'].
    + unfold inBounds in *. rewrite <- Hw, <- Hh. assumption.
    + congruence.
Qed.

Lemma sameLife_livingNeighbors (b s : Board.t) (x y : Z) :
  sameLife b s -> livingNeighbors s x y = livingNeighbors b x y.
Proof.
  intros (Hw & Hh & Hp). unfold livingNeighbors, neighborPositions.
  rewrite Hw, Hh. apply List.filter_ext. intros p. apply Hp.
Qed.

Lemma sameLife_channels (b s : Board.t) (refs : list (Z * Z)) :
  sameLife b s -> Forall (fun p => isAliveAt b p = true) refs ->
  forall i acc, channels s i refs acc = channels b i refs acc.
Proof.
  intros (_ & _ & Hp). induction 1 as [|p rest Ha _ IH]; intros i acc.
  - reflexivity.
  - simpl. destruct (Hp p) as [_ Hcol]. rewrite (Hcol Ha). apply IH.
Qed.

Lemma livingNeighbors_alive (b : Board.t) (x y : Z) :
  Forall (fun p => isAliveAt b p = true) (livingNeighbors b x y).
Proof.
  unfold livingNeighbors. apply List.Forall_forall.
  intros p [_ Hp]%List.filter_In. assumption.
Qed.

Lemma sameLife_pass1_cell (b s : Board.t) (x y : Z) (c : Cell.t) :
  sameLife b s -> pass1_cell s x y c = pass1_cell b x y c.
Proof.
  intros H. unfold pass1_cell, livingNeighborCount, inheritColor.
  rewrite (sameLife_livingNeighbors _ _ _ _ H).
  rewrite (sameLife_channels _ _ _ H (livingNeighbors_alive b x y)).
  reflexivity.
Qed.

Lemma firstPassAt_step (b s : Board.t) (x0 y0 : Z) :
  wf b -> inBounds b x0 y0 -> firstPassAt b x0 y0 s ->
  exists s',
    (let* v := nextState x0 y0 in setNext x0 y0 v) s = Ok tt s' /\
    firstPassAt b x0 (y0 + 1) s'.
Proof.
  intros Hwf Hin Hinv. pose proof (firstPassAt_sameLife _ _ _ _ Hwf Hinv) as Hsame.
  destruct Hinv as (Hwfs & Hw & Hh & Hcells).
  destruct (inBounds_cell _ _ _ Hwf Hin) as [c0 Hc0].
  assert (cell s x0 y0 = Some c0) as Hs0.
  { apply (Hcells _ _ _ Hc0). unfold visited. lia. }
  unfold bind. rewrite (nextState_spec _ _ _ _ Hwfs Hs0).
  rewrite (sameLife_pass1_cell _ _ _ _ _ Hsame).
  unfold livingNeighborCount. rewrite (sameLife_livingNeighbors _ _ _ _ Hsame).
  fold (livingNeighborCount b x0 y0).
  set (s1 := write_cell x0 y0 (pass1_cell b x0 y0 c0) s).
  assert (wf s1) as Hwf1 by (apply wf_write_cell; assumption).
  assert (inBounds s1 x0 y0) as Hin1.
  { unfold inBounds, s1. simpl. rewrite Hw, Hh. exact Hin. }
  destruct (setNext_spec s1 x0 y0
              (aliveNext (Cell.isAlive c0) (livingNeighborCount b x0 y0))
              Hwf1 Hin1) as (nx & -> & Hwf2 & Hnx).
  eexists. split; [reflexivity|].
  split; [assumption|]. split; [exact Hw|]. split; [exact Hh|].
  intros x y c Hc. destruct (Hcells _ _ _ Hc) as [Hv Hnv].
  change (cell (Board.mk (width s1) (height s1) (cells s1) nx) x y)
    with (cell s1 x y).
  rewrite Hnx. unfold s1.
  rewrite (cell_write_cell _ _ _ _ _ _ _ Hs0).
  destruct (decide (x = x0 /\ y = y0)) as [[-> ->]|Hne].
  - assert (c = c0) as -> by congruence. split.
    + intros _. split; reflexivity.
    + intros V. exfalso. apply V. apply visited_next. auto.
  - split.
    + intros [V|V]%visited_next; [|tauto]. destruct (Hv V) as [H1 H2].
      split; [assumption|]. rewrite <- H2. reflexivity.
    + intros V. apply Hnv. intros V'. apply V. apply visited_next. auto.
Qed.

Lemma findNext_spec (b : Board.t) :
  wf b ->
  exists b1,
    findNext b = Ok tt b1 /\ wf b1 /\
    width b1 = width b /\ height b1 = height b /\
    forall x y c, cell b x y = Some c ->
      cell b1 x y = Some (pass1_cell b x y c) /\
      nextAt b1 x y =
        Some (aliveNext (Cell.isAlive c) (livingNeighborCount b x y)).
Proof.
  intros Hwf. unfold findNext, bind, get.
  destruct (for_grid_inv (firstPassAt b) (width b) (height b)
              (fun x y => let* v := nextState x y in setNext x y v) b)
    as (b1 & Hrun & Hinv).
  - split; [assumption|]. split; [reflexivity|]. split; [reflexivity|].
    intros x y c Hc. pose proof (cell_inBounds _ _ _ _ Hwf Hc) as [Hx Hy].
    split; [|auto]. unfold visited. lia.
  - intros x y s Hx Hy. apply firstPassAt_step; [assumption|]. split; assumption.
  - intros x s Hx (Hwfs & Hw & Hh & Hcells).
    split; [assumption|]. split; [assumption|]. split; [assumption|].
    intros x' y' c Hc. pose proof (cell_inBounds _ _ _ _ Hwf Hc) as [Hx' Hy'].
    destruct (Hcells _ _ _ Hc) as [Hv Hnv]. split.
    + intros V. apply Hv. unfold visited in *. lia.
    + intros V. apply Hnv. unfold visited in *. lia.
  - exists b1. split; [exact Hrun|].
    destruct Hinv as (Hwf1 & Hw & Hh & Hcells).
    split; [assumption|]. split; [assumption|]. split; [assumption|].
    intros x y c Hc. pose proof (cell_inBounds _ _ _ _ Hwf Hc) as [Hx Hy].
    apply (Hcells _ _ _ Hc). unfold visited. lia.
Qed.

(** ** Loops that rewrite one cell at a time *)

Lemma cellwise_loop (f : Z -> Z -> Cell.t -> Cell.t) (body : Z -> Z -> M unit)
    (b : Board.t) :
  wf b ->
  (forall x y s c, wf s -> next s = next b -> cell s x y = Some c ->
     body x y s = Ok tt (write_cell x y (f x y c) s)) ->
  exists b',
    for_upto (width b) (fun x => for_upto (height b) (body x)) b = Ok tt b' /\
    wf b' /\ width b' = width b /\ height b' = height b /\
    next b' = next b /\
    forall x y c, cell b x y = Some c -> cell b' x y = Some (f x y c).
Proof.
  intros Hwf Hbody.
  destruct (for_grid_inv (cellwiseAt f b) (width b) (height b) body b)
    as (b' & Hrun & Hinv).
  - split; [assumption|]. repeat (split; [reflexivity|]).
    intros x y c Hc. pose proof (cell_inBounds _ _ _ _ Hwf Hc) as [Hx Hy].
    split; [|auto]. unfold visited. lia.
  - intros x0 y0 s Hx Hy (Hwfs & Hw & Hh & Hn & Hcells).
    destruct (inBounds_cell b x0 y0 Hwf) as [c0 Hc0]; [split; assumption|].
    assert (cell s x0 y0 = Some c0) as Hs0.
    { apply (Hcells _ _ _ Hc0). unfold visited. lia. }
    rewrite (Hbody _ _ _ _ Hwfs Hn Hs0). eexists. split; [reflexivity|].
    split; [apply wf_write_cell; assumption|].
    split; [exact Hw|]. split; [exact Hh|]. split; [exact Hn|].
    intros x y c Hc. destruct (Hcells _ _ _ Hc) as [Hv Hnv].
    rewrite (cell_write_cell _ _ _ _ _ _ _ Hs0).
    destruct (decide (x = x0 /\ y = y0)) as [[-> ->]|Hne].
    + assert (c = c0) as -> by congruence. split; [reflexivity|].
      intros V. exfalso. apply V. apply visited_next. auto.
    + split.
      * intros [V|V]%visited_next; [auto | tauto].
      * intros V. apply Hnv. intros V'. apply V. apply visited_next. auto.
  - intros x s Hx (Hwfs & Hw & Hh & Hn & Hcells).
    repeat (split; [assumption|]).
    intros x' y' c Hc. pose proof (cell_inBounds _ _ _ _ Hwf Hc) as [Hx' Hy'].
    destruct (Hcells _ _ _ Hc) as [Hv Hnv]. split.
    + intros V. apply Hv. unfold visited in *. lia.
    + intros V. apply Hnv. unfold visited in *. lia.
  - exists b'. split; [exact Hrun|].
    destruct Hinv as (Hwf' & Hw & Hh & Hn & Hcells).
    repeat (split; [assumption|]).
    intros x y c Hc. pose proof (cell_inBounds _ _ _ _ Hwf Hc) as [Hx Hy].
    apply (Hcells _ _ _ Hc). unfold visited. lia.
Qed.

(** ** The second pass, and the whole update *)

Lemma applyCell_spec (b : Board.t) (x y : Z) (c : Cell.t) :
  wf b -> cell b x y = Some c ->
  applyCell x y b = Ok tt (write_cell x y (pass2_cell (staged b x y) c) b).
Proof.
  intros Hwf Hc. pose proof (cell_inBounds _ _ _ _ Hwf Hc) as [Hx Hy].
  destruct (index_inside (next b) x) as [col Hcol].
  { rewrite (wf_next b Hwf). lia. }
  unfold applyCell, bind. rewrite (cellAt_Some _ _ _ _ Hc).
  unfold getNext. rewrite Hcol.
  assert (staged b x y = default false (index col y)) as <-.
  { unfold staged, nextAt. rewrite Hcol. reflexivity. }
  unfold pass2_cell.
  destruct (Cell.isAlive c && staged b x y);
    [apply onCell_Some; assumption|].
  destruct (Cell.isAlive c && negb (staged b x y));
    [apply onCell_Some; assumption|].
  destruct (negb (Cell.isAlive c) && staged b x y);
    [apply onCell_Some; assumption|].
  unfold ret. rewrite (write_cell_id _ _ _ _ Hc). reflexivity.
Qed.

Lemma applyNext_spec (b : Board.t) :
  wf b ->
  exists b',
    applyNext b = Ok tt b' /\ wf b' /\
    width b' = width b /\ height b' = height b /\ next b' = next b /\
    forall x y c, cell b x y = Some c ->
      cell b' x y = Some (pass2_cell (staged b x y) c).
Proof.
  intros Hwf. unfold applyNext, bind, get.
  apply (cellwise_loop (fun x y c => pass2_cell (staged b x y) c));
    [assumption|].
  intros x y s c Hwfs Hn Hc. rewrite (applyCell_spec _ _ _ _ Hwfs Hc).
  unfold staged, nextAt. rewrite Hn. reflexivity.
Qed.

Lemma clear_spec (b : Board.t) :
  wf b ->
  exists b',
    clear b = Ok tt b' /\ wf b' /\
    width b' = width b /\ height b' = height b /\ next b' = next b /\
    forall x y c, cell b x y = Some c -> cell b' x y = Some (Cell.kill c).
Proof.
  intros Hwf. unfold clear, bind, get.
  apply (cellwise_loop (fun _ _ c => Cell.kill c)); [assumption|].
  intros x y s c _ _ Hc. apply onCell_Some. assumption.
Qed.

Lemma update_spec (b : Board.t) :
  wf b ->
  exists b',
    update b = Ok tt b' /\ wf b' /\
    width b' = width b /\ height b' = height b /\
    forall x y c, cell b x y = Some c ->
      cell b' x y =
        Some (pass2_cell
                (aliveNext (Cell.isAlive c) (livingNeighborCount b x y))
                (pass1_cell b x y c)).
Proof.
  intros Hwf.
  destruct (findNext_spec b Hwf) as (b1 & Hrun1 & Hwf1 & Hw1 & Hh1 & Hcells1).
  destruct (applyNext_spec b1 Hwf1) as (b2 & Hrun2 & Hwf2 & Hw2 & Hh2 & _ & Hcells2).
  exists b2. unfold update, bind. rewrite Hrun1, Hrun2.
  split; [reflexivity|]. split; [assumption|].
  split; [congruence|]. split; [congruence|].
  intros x y c Hc. destruct (Hcells1 _ _ _ Hc) as [Hc1 Hn1].
  rewrite (Hcells2 _ _ _ Hc1). unfold staged. rewrite Hn1. reflexivity.
Qed.

(** ** The constructor, and what every reachable board satisfies *)

Lemma wf_new (w h : Z) : wf (new w h).
Proof.
  split; simpl.
  - rewrite length_fmap, length_seqZ. reflexivity.
  - apply Forall_fmap, Forall_forall. intros x _. simpl.
    rewrite length_fmap, length_seqZ. reflexivity.
  - rewrite length_fmap, length_seqZ. reflexivity.
  - apply Forall_fmap, Forall_forall. intros x _. simpl.
    rewrite length_fmap, length_seqZ. reflexivity.
Qed.

Lemma cell_new (w h x y : Z) (c : Cell.t) :
  cell (new w h) x y = Some c -> c = Cell.new x y None.
Proof.
  intros (col & Hcol & Hc)%cell_Some. simpl in Hcol.
  apply index_Some in Hcol as [Hx Hcol]. apply index_Some in Hc as [Hy Hc].
  rewrite list_lookup_fmap in Hcol.
  destruct (seqZ 0 w !! Z.to_nat x) as [x'|] eqn:Ex; [|discriminate].
  apply lookup_seqZ in Ex as [-> _]. simpl in Hcol. injection Hcol as <-.
  rewrite list_lookup_fmap in Hc.
  destruct (seqZ 0 h !! Z.to_nat y) as [y'|] eqn:Ey; [|discriminate].
  apply lookup_seqZ in Ey as [-> _]. simpl in Hc. injection Hc as <-.
  f_equal; lia.
Qed.

Lemma pass2_cell_young (v : bool) (c : Cell.t) :
  (Cell.isAlive c = false -> Cell.maturity c = 0.1%float) ->
  Cell.isAlive (pass2_cell v c) = false ->
  Cell.maturity (pass2_cell v c) = 0.1%float.
Proof.
  unfold pass2_cell, Cell.mature.
  destruct (Cell.isAlive c) eqn:Ha, v; simpl;
    try destruct (PrimFloat.ltb (Cell.maturity c) 1); simpl; auto;
    try (rewrite Ha; discriminate); discriminate.
Qed.

Lemma toggle_young (color : string) (c : Cell.t) :
  (Cell.isAlive c = false -> Cell.maturity c = 0.1%float) ->
  Cell.isAlive (Cell.toggle color c) = false ->
  Cell.maturity (Cell.toggle color c) = 0.1%float.
Proof.
  unfold Cell.toggle.
  destruct (Cell.isAlive c) eqn:Ha; simpl.
  - destruct (String.eqb (Cell.color c) color); simpl; auto.
    rewrite Ha. discriminate.
  - discriminate.
Qed.

Lemma onCell_preserves (P : Cell.t -> Prop) (f : Cell.t -> Cell.t)
    (b : Board.t) (x y : Z) :
  (forall c, P c -> P (f c)) ->
  wf b -> (forall x y c, cell b x y = Some c -> P c) ->
  wf (state_of (onCell x y f b)) /\
  forall x' y' c, cell (state_of (onCell x y f b)) x' y' = Some c -> P c.
Proof.
  intros Hf Hwf HP. destruct (cell b x y) as [c0|] eqn:Hc0.
  - rewrite (onCell_Some _ _ _ _ _ Hc0). simpl.
    split; [apply wf_write_cell; assumption|].
    intros x' y' c. rewrite (cell_write_cell _ _ _ _ _ _ _ Hc0).
    destruct (decide (x' = x /\ y' = y)).
    + intros [= <-]. apply Hf. eapply HP. eassumption.
    + apply HP.
  - rewrite (onCell_None _ _ _ _ Hc0). simpl. auto.
Qed.

Lemma reachable_invariant (b : Board.t) :
  reachable b -> wf b /\ deadAreYoung b.
Proof.
  induction 1 as [w h|b o _ [Hwf Hinv]].
  - split; [apply wf_new|]. intros x y c ->%cell_new _. reflexivity.
  - destruct o as [|x y color|x y|]; simpl.
    + destruct (update_spec b Hwf) as (b' & -> & Hwf' & Hw & Hh & Hcells).
      simpl. split; [assumption|]. intros x y c Hc.
      destruct (inBounds_cell b x y Hwf) as [c0 Hc0].
      { pose proof (cell_inBounds _ _ _ _ Hwf' Hc) as Hin.
        unfold inBounds in *. rewrite <- Hw, <- Hh. assumption. }
      rewrite (Hcells _ _ _ Hc0) in Hc. injection Hc as <-.
      apply pass2_cell_young. rewrite pass1_cell_isAlive, pass1_cell_maturity.
      apply (Hinv _ _ _ Hc0).
    + unfold clickCell.
      apply (onCell_preserves
               (fun c => Cell.isAlive c = false -> Cell.maturity c = 0.1%float));
        [apply toggle_young | assumption | exact Hinv].
    + apply (onCell_preserves
               (fun c => Cell.isAlive c = false -> Cell.maturity c = 0.1%float));
        [reflexivity | assumption | exact Hinv].
    + destruct (clear_spec b Hwf) as (b' & -> & Hwf' & Hw & Hh & _ & Hcells).
      simpl. split; [assumption|]. intros x y c Hc.
      destruct (inBounds_cell b x y Hwf) as [c0 Hc0].
      { pose proof (cell_inBounds _ _ _ _ Hwf' Hc) as Hin.
        unfold inBounds in *. rewrite <- Hw, <- Hh. assumption. }
      rewrite (Hcells _ _ _ Hc0) in Hc. injection Hc as <-. reflexivity.
Qed.

(** ** The guards of the source against the adjacency of the specification *)

Lemma neighborPositions_adjacent (b : Board.t) (x y : Z) :
  inBounds b x y -> neighborPositions b x y = adjacent b x y.
Proof.
  intros [Hx Hy].
  unfold neighborPositions, adjacent, neighborChecks, compass, inside.
  cbn [fmap list_fmap fst snd]. rewrite !Z.add_0_r.
  destruct (Z.eqb_spec x 0), (Z.eqb_spec y 0),
    (Z.eqb_spec x (width b - 1)), (Z.eqb_spec y (height b - 1));
    cbn [List.filter fst snd negb andb fmap list_fmap];
    settle_bounds; reflexivity.
Qed.

(** ** The rule of the first pass *)

(** C1.  For every board and every cell [(x, y)], the state the first pass
    of [update] stages for the cell is the standard rule applied to the
    board as it was before the update: a living cell is staged alive if and
    only if it has two or three living neighbours among the adjacent
    positions on the board, a dead cell if and only if it has exactly
    three. *)
Theorem first_pass_life_rule (b : Board.t) :
  wf b ->
  exists b1,
    findNext b = Ok tt b1 /\
    forall x y c, cell b x y = Some c ->
      exists v,
        nextAt b1 x y = Some v /\
        let n := Z.of_nat (length (List.filter (isAliveAt b) (adjacent b x y))) in
        (Cell.isAlive c = true -> (v = true <-> n = 2 \/ n = 3)) /\
        (Cell.isAlive c = false -> (v = true <-> n = 3)).
Proof.
  intros Hwf.
  destruct (findNext_spec b Hwf) as (b1 & Hrun & _ & _ & _ & Hcells).
  exists b1. split; [exact Hrun|]. intros x y c Hc.
  destruct (Hcells _ _ _ Hc) as [_ Hn]. eexists. split; [exact Hn|].
  unfold livingNeighborCount, livingNeighbors.
  rewrite (neighborPositions_adjacent _ _ _ (cell_inBounds _ _ _ _ Hwf Hc)).
  cbv zeta. unfold aliveNext. split; intros ->; simpl.
  - rewrite orb_true_iff, !Z.eqb_eq. reflexivity.
  - rewrite Z.eqb_eq. reflexivity.
Qed.

Lemma first_pass_life_rule_witness :
  wf tromino /\
  exists b1,
    findNext tromino = Ok tt b1 /\
    forall x y c, cell tromino x y = Some c ->
      exists v,
        nextAt b1 x y = Some v /\
        let n :=
          Z.of_nat (length (List.filter (isAliveAt tromino) (adjacent tromino x y))) in
        (Cell.isAlive c = true -> (v = true <-> n = 2 \/ n = 3)) /\
        (Cell.isAlive c = false -> (v = true <-> n = 3)).
Proof.
  split.
  - split; vm_compute; repeat constructor.
  - apply (first_pass_life_rule tromino). split; vm_compute; repeat constructor.
Defined.

(** ** The colour of a newborn *)

Lemma channels_of_three (c1 c2 c3 : string) :
  rgb c1 -> rgb c2 -> rgb c3 ->
  let col :=
    ((("#" ++ substring 1 2 c1) ++ substring 3 2 c2) ++ substring 5 2 c3)%string in
  red col = red c1 /\ green col = green c2 /\ blue col = blue c3.
Proof.
  unfold rgb. intros H1 H2 H3.
  destruct c1 as [|a1 [|a2 [|a3 [|a4 [|a5 [|a6 [|a7 [|a8 r1]]]]]]]];
    try discriminate H1.
  destruct c2 as [|b1 [|b2 [|b3 [|b4 [|b5 [|b6 [|b7 [|b8 r2]]]]]]]];
    try discriminate H2.
  destruct c3 as [|d1 [|d2 [|d3 [|d4 [|d5 [|d6 [|d7 [|d8 r3]]]]]]]];
    try discriminate H3.
  repeat split; reflexivity.
Qed.

Lemma channels_of_three_rgb (c1 c2 c3 : string) :
  rgb c1 -> rgb c2 -> rgb c3 ->
  rgb ((("#" ++ substring 1 2 c1) ++ substring 3 2 c2) ++ substring 5 2 c3)%string.
Proof.
  unfold rgb. intros H1 H2 H3.
  destruct c1 as [|a1 [|a2 [|a3 [|a4 [|a5 [|a6 [|a7 [|a8 r1]]]]]]]];
    try discriminate H1.
  destruct c2 as [|b1 [|b2 [|b3 [|b4 [|b5 [|b6 [|b7 [|b8 r2]]]]]]]];
    try discriminate H2.
  destruct c3 as [|d1 [|d2 [|d3 [|d4 [|d5 [|d6 [|d7 [|d8 r3]]]]]]]];
    try discriminate H3.
  reflexivity.
Qed.

Lemma inheritColor_rgb (b : Board.t) (x y : Z) :
  wf b -> rgbColors b -> inBounds b x y ->
  livingNeighborCount b x y = 3 -> rgb (inheritColor b x y).
Proof.
  intros Hwf Hrgb Hin Hcount.
  assert (Forall (fun p => rgb (colorAt b p)) (livingNeighbors b x y)) as Hall.
  { unfold livingNeighbors. apply Forall_filter_bool.
    eapply Forall_impl; [apply neighborPositions_inBounds; exact Hin|].
    intros p [Hp _]. destruct (inBounds_cell _ _ _ Hwf Hp) as [c Hc].
    unfold colorAt. rewrite Hc. apply (Hrgb _ _ _ Hc). }
  unfold inheritColor, livingNeighborCount in *.
  destruct (livingNeighbors b x y) as [|p1 [|p2 [|p3 [|p4 l]]]];
    simpl in Hcount; try lia.
  apply Forall_cons in Hall as [R1 Hall].
  apply Forall_cons in Hall as [R2 Hall].
  apply Forall_cons in Hall as [R3 _].
  apply (channels_of_three_rgb _ _ _ R1 R2 R3).
Qed.

Lemma pass2_cell_color (v : bool) (c : Cell.t) :
  Cell.color (pass2_cell v c) = Cell.color c.
Proof.
  unfold pass2_cell, Cell.mature.
  destruct (Cell.isAlive c), v; simpl;
    try destruct (PrimFloat.ltb (Cell.maturity c) 1); reflexivity.
Qed.

Lemma runOp_keeps_rgb (b : Board.t) (o : Op) :
  wf b -> rgbColors b -> rgbOp o ->
  wf (state_of (runOp o b)) /\ rgbColors (state_of (runOp o b)).
Proof.
  intros Hwf Hrgb Ho. destruct o as [|x y color|x y|]; simpl in *.
  - destruct (update_spec b Hwf) as (b' & -> & Hwf' & Hw & Hh & Hcells).
    simpl. split; [assumption|]. intros x y c Hc.
    assert (inBounds b x y) as Hin.
    { pose proof (cell_inBounds _ _ _ _ Hwf' Hc) as Hin.
      unfold inBounds in *. rewrite <- Hw, <- Hh. assumption. }
    destruct (inBounds_cell b x y Hwf Hin) as [c0 Hc0].
    rewrite (Hcells _ _ _ Hc0) in Hc. injection Hc as <-.
    rewrite pass2_cell_color. unfold pass1_cell.
    destruct (Cell.isAlive c0); simpl; [apply (Hrgb _ _ _ Hc0)|].
    destruct (Z.eqb_spec (livingNeighborCount b x y) 3) as [E|E]; simpl.
    + apply inheritColor_rgb; assumption.
    + apply (Hrgb _ _ _ Hc0).
  - unfold clickCell.
    apply (onCell_preserves (fun c => rgb (Cell.color c)));
      [|assumption | exact Hrgb].
    intros c Hc. unfold Cell.toggle.
    destruct (Cell.isAlive c); [|exact Ho].
    destruct (String.eqb (Cell.color c) color); [exact Hc | exact Ho].
  - apply (onCell_preserves (fun c => rgb (Cell.color c)));
      [auto | assumption | exact Hrgb].
  - destruct (clear_spec b Hwf) as (b' & -> & Hwf' & Hw & Hh & _ & Hcells).
    simpl. split; [assumption|]. intros x y c Hc.
    destruct (inBounds_cell b x y Hwf) as [c0 Hc0].
    { pose proof (cell_inBounds _ _ _ _ Hwf' Hc) as Hin.
      unfold inBounds in *. rewrite <- Hw, <- Hh. assumption. }
    rewrite (Hcells _ _ _ Hc0) in Hc. injection Hc as <-.
    apply (Hrgb _ _ _ Hc0).
Qed.

(** Started from the constructor and clicked with seven-character colours
    only, a board never holds another kind of colour: the three parents of
    a newborn then always have colours of that kind. *)
Lemma runOps_keep_rgb (os : list Op) (w h : Z) :
  Forall rgbOp os -> rgbColors (runOps os (new w h)).
Proof.
  intros Hos.
  assert (forall b, wf b -> rgbColors b ->
            wf (runOps os b) /\ rgbColors (runOps os b)) as Hgen.
  { induction Hos as [|o os Ho _ IH]; intros b Hwf Hrgb; [auto|].
    simpl. destruct (runOp_keeps_rgb b o Hwf Hrgb Ho) as [Hwf' Hrgb'].
    apply IH; assumption. }
  apply Hgen; [apply wf_new|].
  intros x y c ->%cell_new. reflexivity.
Qed.

(** C2.  A dead cell with exactly three living neighbours is alive after
    [update], and its colour takes its red channel from the first living
    neighbour, its green channel from the second and its blue channel from
    the third, the living neighbours being listed from due left and
    clockwise: left, top-left, top, top-right, right, bottom-right,
    bottom, bottom-left.  Colours are seven-character ["#rrggbb"]
    strings. *)
Theorem newborn_color (b : Board.t) (x y : Z) (c : Cell.t) (p1 p2 p3 : Z * Z) :
  wf b ->
  cell b x y = Some c -> Cell.isAlive c = false ->
  List.filter (isAliveAt b) (adjacent b x y) = [p1; p2; p3] ->
  rgb (colorAt b p1) -> rgb (colorAt b p2) -> rgb (colorAt b p3) ->
  exists b' c',
    update b = Ok tt b' /\ cell b' x y = Some c' /\
    Cell.isAlive c' = true /\
    red (Cell.color c') = red (colorAt b p1) /\
    green (Cell.color c') = green (colorAt b p2) /\
    blue (Cell.color c') = blue (colorAt b p3).
Proof.
  intros Hwf Hc Hdead Hthree R1 R2 R3.
  destruct (update_spec b Hwf) as (b' & Hrun & _ & _ & _ & Hcells).
  assert (livingNeighbors b x y = [p1; p2; p3]) as Hliving.
  { unfold livingNeighbors.
    rewrite (neighborPositions_adjacent _ _ _ (cell_inBounds _ _ _ _ Hwf Hc)).
    exact Hthree. }
  exists b'. eexists. split; [exact Hrun|]. split; [apply (Hcells _ _ _ Hc)|].
  unfold pass1_cell, inheritColor, livingNeighborCount.
  rewrite Hliving, Hdead.
  change (negb false && (Z.of_nat (length [p1; p2; p3]) =? 3)) with true.
  change (aliveNext false (Z.of_nat (length [p1; p2; p3]))) with true.
  cbv iota. unfold pass2_cell. cbn [Cell.isAlive Cell.set_color].
  rewrite Hdead. cbn [andb negb Cell.set_isAlive Cell.isAlive Cell.color].
  split; [reflexivity|].
  apply (channels_of_three _ _ _ R1 R2 R3).
Qed.

Lemma newborn_color_witness :
  exists b' c',
    update tromino = Ok tt b' /\ cell b' 1 1 = Some c' /\
    Cell.isAlive c' = true /\
    red (Cell.color c') = red (colorAt tromino (0, 1)) /\
    green (Cell.color c') = green (colorAt tromino (0, 0)) /\
    blue (Cell.color c') = blue (colorAt tromino (1, 0)).
Proof.
  apply (newborn_color tromino 1 1 (Cell.mk 1 1 false 0.1%float "#000000")
           (0, 1) (0, 0) (1, 0)).
  - split; vm_compute; repeat constructor.
  - reflexivity.
  - reflexivity.
  - reflexivity.
  - reflexivity.
  - reflexivity.
  - reflexivity.
Defined.

(** ** Maturity *)

(** C3.  On the 2 x 2 board with three living cells, the cell at [(1, 1)]
    is born by the first [update] with maturity 0.1 and lives on in each
    of the next ten generations.  After nine of them its maturity is
    0.99999999999999989, not 1; after ten it is 1.0999999999999999, above
    the maximum of 1. *)
Theorem maturity_overshoots :
  Cell.isAlive <$> cell tromino 1 1 = Some false /\
  Cell.maturity <$> cell (generations 1 tromino) 1 1 = Some 0.1%float /\
  forallb (fun n => bool_decide
             (Cell.isAlive <$> cell (generations n tromino) 1 1 = Some true))
          (seq 1 11) = true /\
  Cell.maturity <$> cell (generations 10 tromino) 1 1
    = Some 0.99999999999999989%float /\
  0.99999999999999989%float <> 1%float /\
  Cell.maturity <$> cell (generations 11 tromino) 1 1
    = Some 1.0999999999999999%float /\
  PrimFloat.ltb 1 1.0999999999999999 = true.
Proof.
  repeat split; try (vm_compute; reflexivity).
  intros H. apply (f_equal (fun m => PrimFloat.ltb m 1)) in H.
  vm_compute in H. discriminate H.
Qed.

(** ** What the first pass writes *)

(** C4, as stated, fails: the first pass of [update] on the 2 x 2 board
    with three living cells overwrites the colour of the dead cell. *)
Lemma first_pass_mutates_color :
  exists c c1,
    cell tromino 1 1 = Some c /\
    cell (state_of (findNext tromino)) 1 1 = Some c1 /\
    Cell.color c = "#000000"%string /\
    Cell.color c1 = "#772266"%string /\
    c1 <> c.
Proof.
  eexists. eexists.
  split; [vm_compute; reflexivity|]. split; [vm_compute; reflexivity|].
  split; [reflexivity|]. split; [reflexivity|]. discriminate.
Qed.

(** C4, amended.  The first pass of [update] changes no cell's position,
    alive status or maturity, and no colour but that of a dead cell with
    exactly three living neighbours, which becomes the inherited colour;
    everything else it writes goes to the staging buffer. *)
Theorem first_pass_frame (b : Board.t) :
  wf b ->
  exists b1,
    findNext b = Ok tt b1 /\
    width b1 = width b /\ height b1 = height b /\
    forall x y c, cell b x y = Some c ->
      exists c1,
        cell b1 x y = Some c1 /\
        Cell.x c1 = Cell.x c /\ Cell.y c1 = Cell.y c /\
        Cell.isAlive c1 = Cell.isAlive c /\
        Cell.maturity c1 = Cell.maturity c /\
        (Cell.isAlive c = true \/ livingNeighborCount b x y <> 3 -> c1 = c) /\
        (Cell.isAlive c = false -> livingNeighborCount b x y = 3 ->
           Cell.color c1 = inheritColor b x y).
Proof.
  intros Hwf.
  destruct (findNext_spec b Hwf) as (b1 & Hrun & _ & Hw & Hh & Hcells).
  exists b1. repeat (split; [assumption|]). intros x y c Hc.
  destruct (Hcells _ _ _ Hc) as [Hc1 _]. eexists. split; [exact Hc1|].
  unfold pass1_cell.
  destruct (Cell.isAlive c) eqn:Ha; simpl.
  - do 4 (split; [auto|]). split; [reflexivity|]. intros [=].
  - destruct (Z.eqb_spec (livingNeighborCount b x y) 3) as [E|E]; simpl.
    + do 4 (split; [auto|]). split; [|reflexivity].
      intros [[=]|?]. contradiction.
    + do 4 (split; [auto|]). split; [reflexivity|]. intros _ ?. contradiction.
Qed.

Lemma first_pass_frame_witness :
  wf tromino /\
  exists b1,
    findNext tromino = Ok tt b1 /\
    width b1 = width tromino /\ height b1 = height tromino /\
    forall x y c, cell tromino x y = Some c ->
      exists c1,
        cell b1 x y = Some c1 /\
        Cell.x c1 = Cell.x c /\ Cell.y c1 = Cell.y c /\
        Cell.isAlive c1 = Cell.isAlive c /\
        Cell.maturity c1 = Cell.maturity c /\
        (Cell.isAlive c = true \/ livingNeighborCount tromino x y <> 3 ->
           c1 = c) /\
        (Cell.isAlive c = false -> livingNeighborCount tromino x y = 3 ->
           Cell.color c1 = inheritColor tromino x y).
Proof.
  split.
  - split; vm_compute; repeat constructor.
  - apply (first_pass_frame tromino). split; vm_compute; repeat constructor.
Defined.

(** ** Clicking a cell *)

(** C5.  For every cell of a board the program can reach, a click
    ([clickCell], which calls the cell's [toggle] with the requested
    colour) does this: a dead cell becomes alive with the requested colour
    and maturity 0.1; a living cell of the requested colour becomes dead
    with maturity 0.1; a living cell of another colour stays alive, takes
    the requested colour and keeps its maturity. *)
Theorem toggle_cases (b : Board.t) (x y : Z) (c : Cell.t)
    (requestedColor : string) :
  reachable b -> cell b x y = Some c ->
  let c' := Cell.toggle requestedColor c in
  clickCell x y requestedColor b = Ok tt (write_cell x y c' b) /\
  cell (write_cell x y c' b) x y = Some c' /\
  (Cell.isAlive c = false ->
     Cell.isAlive c' = true /\ Cell.color c' = requestedColor /\
     Cell.maturity c' = 0.1%float) /\
  (Cell.isAlive c = true -> Cell.color c = requestedColor ->
     Cell.isAlive c' = false /\ Cell.maturity c' = 0.1%float) /\
  (Cell.isAlive c = true -> Cell.color c <> requestedColor ->
     Cell.isAlive c' = true /\ Cell.color c' = requestedColor /\
     Cell.maturity c' = Cell.maturity c).
Proof.
  intros Hreach Hc. cbv zeta.
  destruct (reachable_invariant b Hreach) as [Hwf Hyoung].
  split; [apply onCell_Some; assumption|].
  split; [eapply cell_write_cell_same; eassumption|].
  unfold Cell.toggle. split; [|split].
  - intros Ha. rewrite Ha. simpl. repeat split; try reflexivity.
    apply (Hyoung _ _ _ Hc Ha).
  - intros Ha Hcol. rewrite Ha.
    destruct (String.eqb_spec (Cell.color c) requestedColor);
      [|contradiction].
    split; reflexivity.
  - intros Ha Hcol. rewrite Ha.
    destruct (String.eqb_spec (Cell.color c) requestedColor);
      [contradiction|].
    simpl. auto.
Qed.

Lemma toggle_cases_witness :
  let c := Cell.mk 1 1 false 0.1%float "#000000" in
  let c' := Cell.toggle "#abcdef" c in
  clickCell 1 1 "#abcdef" tromino = Ok tt (write_cell 1 1 c' tromino) /\
  cell (write_cell 1 1 c' tromino) 1 1 = Some c' /\
  (Cell.isAlive c = false ->
     Cell.isAlive c' = true /\ Cell.color c' = "#abcdef"%string /\
     Cell.maturity c' = 0.1%float) /\
  (Cell.isAlive c = true -> Cell.color c = "#abcdef"%string ->
     Cell.isAlive c' = false /\ Cell.maturity c' = 0.1%float) /\
  (Cell.isAlive c = true -> Cell.color c <> "#abcdef"%string ->
     Cell.isAlive c' = true /\ Cell.color c' = "#abcdef"%string /\
     Cell.maturity c' = Cell.maturity c).
Proof.
  apply (toggle_cases tromino 1 1 (Cell.mk 1 1 false 0.1%float "#000000")
           "#abcdef").
  - unfold tromino, runOps. cbn [fold_left].
    do 3 apply reachable_step. apply reachable_new.
  - reflexivity.
Defined.

(** ** Dead cells *)

(** C6.  In every board reachable from a freshly constructed one by
    [update], clicks, [kill] and [clear], every dead cell has maturity
    exactly 0.1. *)
Theorem dead_cells_have_birth_maturity (b : Board.t) (x y : Z) (c : Cell.t) :
  reachable b -> cell b x y = Some c -> Cell.isAlive c = false ->
  Cell.maturity c = 0.1%float.
Proof.
  intros Hreach. destruct (reachable_invariant b Hreach) as [_ Hyoung].
  apply Hyoung.
Qed.

Lemma dead_cells_have_birth_maturity_witness :
  let b := runOps [OpUpdate; OpUpdate; OpClickCell 0 0 "#112233"; OpClear;
                   OpClickCell 1 1 "#112233"; OpKill 1 1] tromino in
  reachable b /\
  cell b 1 1 = Some (Cell.mk 1 1 false 0.1%float "#112233") /\
  Cell.maturity (Cell.mk 1 1 false 0.1%float "#112233") = 0.1%float.
Proof.
  cbv zeta.
  assert (reachable
            (runOps [OpUpdate; OpUpdate; OpClickCell 0 0 "#112233"; OpClear;
                     OpClickCell 1 1 "#112233"; OpKill 1 1] tromino)) as Hreach.
  { unfold tromino, runOps. cbn [fold_left].
    do 9 apply reachable_step. apply reachable_new. }
  split; [exact Hreach|]. split; [vm_compute; reflexivity|].
  apply (dead_cells_have_birth_maturity _ 1 1 _ Hreach).
  - vm_compute. reflexivity.
  - reflexivity.
Defined.

(** ** One generation on the pattern of living cells *)

Lemma mature_isAlive (c : Cell.t) :
  Cell.isAlive (Cell.mature c) = Cell.isAlive c.
Proof.
  unfold Cell.mature. destruct (PrimFloat.ltb (Cell.maturity c) 1); reflexivity.
Qed.

Lemma pass2_cell_isAlive (v : bool) (c : Cell.t) :
  Cell.isAlive (pass2_cell v c) = v.
Proof.
  unfold pass2_cell. destruct (Cell.isAlive c) eqn:Ha, v; simpl;
    rewrite ?mature_isAlive; auto.
Qed.

Lemma isAliveAt_pattern (b : Board.t) (f : Z -> Z -> bool) (p : Z * Z) :
  wf b -> hasPattern b f -> inBounds b p.1 p.2 -> isAliveAt b p = f p.1 p.2.
Proof.
  intros Hwf Hf Hin. destruct (inBounds_cell _ _ _ Hwf Hin) as [c Hc].
  unfold isAliveAt. rewrite Hc. apply (Hf _ _ _ Hc).
Qed.

Lemma count_pattern (b : Board.t) (f : Z -> Z -> bool) (x y : Z) :
  wf b -> hasPattern b f -> inBounds b x y ->
  livingNeighborCount b x y =
    Z.of_nat (length (List.filter (fun p => f p.1 p.2)
      (snd <$> List.filter fst (neighborChecks (width b) (height b) x y)))).
Proof.
  intros Hwf Hf Hin. unfold livingNeighborCount, livingNeighbors.
  do 2 f_equal. apply List.filter_ext_in. intros p Hp.
  apply isAliveAt_pattern; [assumption | assumption |].
  pose proof (neighborPositions_inBounds _ _ _ Hin) as Hall.
  rewrite List.Forall_forall in Hall. apply (Hall p Hp).
Qed.

Lemma update_pattern (b : Board.t) (f : Z -> Z -> bool) :
  wf b -> hasPattern b f ->
  exists b',
    update b = Ok tt b' /\ wf b' /\
    width b' = width b /\ height b' = height b /\
    hasPattern b' (nextPattern (width b) (height b) f).
Proof.
  intros Hwf Hf.
  destruct (update_spec b Hwf) as (b' & Hrun & Hwf' & Hw & Hh & Hcells).
  exists b'. repeat (split; [assumption|]). intros x y c' Hc'.
  assert (inBounds b x y) as Hin.
  { pose proof (cell_inBounds _ _ _ _ Hwf' Hc') as Hin.
    unfold inBounds in *. rewrite <- Hw, <- Hh. assumption. }
  destruct (inBounds_cell _ _ _ Hwf Hin) as [c Hc].
  rewrite (Hcells _ _ _ Hc) in Hc'. injection Hc' as <-.
  rewrite pass2_cell_isAlive. unfold nextPattern.
  rewrite (Hf _ _ _ Hc), (count_pattern _ _ _ _ Hwf Hf Hin). reflexivity.
Qed.

Lemma hasPattern_ext (b : Board.t) (f g : Z -> Z -> bool) :
  wf b -> hasPattern b f ->
  (forall x y, inBounds b x y -> f x y = g x y) -> hasPattern b g.
Proof.
  intros Hwf Hf Hfg x y c Hc. rewrite (Hf _ _ _ Hc).
  apply Hfg. eapply cell_inBounds; eassumption.
Qed.

Lemma inSet_In (ps : list (Z * Z)) (x y : Z) :
  inSet ps x y = true <-> In (x, y) ps.
Proof.
  unfold inSet. rewrite existsb_exists. split.
  - intros ([px py] & Hin & [E1 E2]%andb_true_iff). simpl in *.
    apply Z.eqb_eq in E1, E2. subst. assumption.
  - intros Hin. exists (x, y). split; [assumption|]. simpl.
    rewrite !Z.eqb_refl. reflexivity.
Qed.

Lemma aliveSet_hasPattern (b : Board.t) (ps : list (Z * Z)) :
  aliveSet b ps <-> hasPattern b (inSet ps).
Proof.
  unfold aliveSet, hasPattern. split; intros H x y c Hc.
  - specialize (H _ _ _ Hc). rewrite <- inSet_In in H.
    destruct (Cell.isAlive c), (inSet ps x y); try reflexivity.
    + destruct H as [H _]. symmetry. auto.
    + destruct H as [_ H]. auto.
  - rewrite (H _ _ _ Hc). apply inSet_In.
Qed.

Lemma checkPattern_sound (b : Board.t) (f : Z -> Z -> bool) :
  wf b -> checkPattern b f = true -> hasPattern b f.
Proof.
  intros Hwf Hcheck x y c Hc.
  pose proof (cell_inBounds _ _ _ _ Hwf Hc) as [Hx Hy].
  unfold checkPattern in Hcheck. rewrite forallb_forall in Hcheck.
  specialize (Hcheck x). rewrite forallb_forall in Hcheck.
  assert (In x (seqZ 0 (width b))) as Hinx.
  { apply list_elem_of_In, elem_of_seqZ. lia. }
  assert (In y (seqZ 0 (height b))) as Hiny.
  { apply list_elem_of_In, elem_of_seqZ. lia. }
  specialize (Hcheck Hinx y Hiny). rewrite Hc in Hcheck.
  apply Bool.eqb_prop. assumption.
Qed.

Lemma blinker_turns (x y : Z) :
  0 <= x < 5 -> 0 <= y < 5 ->
  nextPattern 5 5 (inSet horizontal) x y = inSet vertical x y /\
  nextPattern 5 5 (inSet vertical) x y = inSet horizontal x y.
Proof.
  intros Hx Hy.
  assert (x = 0 \/ x = 1 \/ x = 2 \/ x = 3 \/ x = 4) as Ex by lia.
  assert (y = 0 \/ y = 1 \/ y = 2 \/ y = 3 \/ y = 4) as Ey by lia.
  destruct Ex as [->|[->|[->|[->| ->]]]];
    destruct Ey as [->|[->|[->|[->| ->]]]];
    split; reflexivity.
Qed.

(** C7.  On a 5 x 5 board whose living cells are exactly (1,2), (2,2) and
    (3,2), whatever the colours and maturities, one [update] returns a
    5 x 5 board on which exactly (2,1), (2,2) and (2,3) are alive, and a
    second [update] returns a 5 x 5 board on which exactly (1,2), (2,2) and
    (3,2) are alive again. *)
Theorem blinker_period_two (b : Board.t) :
  wf b -> width b = 5 -> height b = 5 ->
  aliveSet b horizontal ->
  exists b1 b2,
    update b = Ok tt b1 /\
    wf b1 /\ width b1 = 5 /\ height b1 = 5 /\ aliveSet b1 vertical /\
    update b1 = Ok tt b2 /\
    wf b2 /\ width b2 = 5 /\ height b2 = 5 /\ aliveSet b2 horizontal.
Proof.
  intros Hwf Hw Hh Hstart%aliveSet_hasPattern.
  destruct (update_pattern b _ Hwf Hstart) as (b1 & Hrun1 & Hwf1 & Hw1 & Hh1 & Hp1).
  assert (hasPattern b1 (inSet vertical)) as Hv.
  { apply (hasPattern_ext _ _ _ Hwf1 Hp1). intros x y [Hx Hy].
    rewrite Hw, Hh. apply blinker_turns; lia. }
  destruct (update_pattern b1 _ Hwf1 Hv) as (b2 & Hrun2 & Hwf2 & Hw2 & Hh2 & Hp2).
  exists b1, b2. split; [assumption|]. split; [assumption|].
  split; [congruence|]. split; [congruence|].
  split; [apply aliveSet_hasPattern; assumption|]. split; [assumption|].
  split; [assumption|]. split; [congruence|]. split; [congruence|].
  apply aliveSet_hasPattern. apply (hasPattern_ext _ _ _ Hwf2 Hp2).
  intros x y [Hx Hy]. rewrite Hw1, Hh1, Hw, Hh. apply blinker_turns; lia.
Qed.

Lemma blinker_period_two_witness :
  exists b1 b2,
    update blinker = Ok tt b1 /\
    wf b1 /\ width b1 = 5 /\ height b1 = 5 /\ aliveSet b1 vertical /\
    update b1 = Ok tt b2 /\
    wf b2 /\ width b2 = 5 /\ height b2 = 5 /\ aliveSet b2 horizontal.
Proof.
  apply (blinker_period_two blinker).
  - split; vm_compute; repeat constructor.
  - reflexivity.
  - reflexivity.
  - apply aliveSet_hasPattern, checkPattern_sound.
    + split; vm_compute; repeat constructor.
    + vm_compute. reflexivity.
Defined.

(** ** Boards without living cells *)

Lemma index_of_nat {A} (a : list A) (i : nat) :
  index a (Z.of_nat i) = a !! i.
Proof.
  unfold index. destruct (Z.ltb_spec (Z.of_nat i) 0); [lia|].
  rewrite Nat2Z.id. reflexivity.
Qed.

Lemma cells_ext (b b' : Board.t) :
  wf b -> wf b' -> width b' = width b -> height b' = height b ->
  (forall x y, cell b' x y = cell b x y) -> cells b' = cells b.
Proof.
  intros Hwf Hwf' Hw Hh Hcell. apply list_eq. intros i.
  destruct (cells b !! i) as [col|] eqn:E, (cells b' !! i) as [col'|] eqn:E'.
  - f_equal. apply list_eq. intros j.
    specialize (Hcell (Z.of_nat i) (Z.of_nat j)). unfold cell in Hcell.
    rewrite !index_of_nat, E, E', !index_of_nat in Hcell. exact Hcell.
  - apply lookup_lt_Some in E. apply lookup_ge_None in E'.
    rewrite (wf_cells b Hwf) in E. rewrite (wf_cells b' Hwf') in E'. lia.
  - apply lookup_ge_None in E. apply lookup_lt_Some in E'.
    rewrite (wf_cells b Hwf) in E. rewrite (wf_cells b' Hwf') in E'. lia.
  - reflexivity.
Qed.

Lemma allDead_no_living (b : Board.t) (l : list (Z * Z)) :
  allDead b -> List.filter (isAliveAt b) l = [].
Proof.
  intros Hdead. induction l as [|p l IH]; [reflexivity|]. simpl.
  assert (isAliveAt b p = false) as ->; [|exact IH].
  unfold isAliveAt. destruct (cell b p.1 p.2) as [c|] eqn:Hc; [|reflexivity].
  apply (Hdead _ _ _ Hc).
Qed.

Lemma update_allDead (b : Board.t) :
  wf b -> allDead b ->
  exists b', update b = Ok tt b' /\ allDead b' /\ cells b' = cells b.
Proof.
  intros Hwf Hdead.
  destruct (update_spec b Hwf) as (b' & Hrun & Hwf' & Hw & Hh & Hcells).
  assert (cells b' = cells b) as Heq.
  { apply cells_ext; try assumption. intros x y.
    destruct (cell b x y) as [c|] eqn:Hc.
    - rewrite (Hcells _ _ _ Hc). f_equal.
      unfold pass1_cell, livingNeighborCount, livingNeighbors.
      rewrite (allDead_no_living _ _ Hdead), (Hdead _ _ _ Hc). simpl.
      unfold pass2_cell. rewrite (Hdead _ _ _ Hc). reflexivity.
    - apply outOfBounds_cell; [assumption|]. intros Hin.
      destruct (inBounds_cell b x y Hwf) as [c Hc'].
      + unfold inBounds in *. rewrite <- Hw, <- Hh. assumption.
      + congruence. }
  exists b'. split; [assumption|]. split; [|assumption].
  unfold allDead, cell. rewrite Heq. exact Hdead.
Qed.

(** C8.  [update] on a board without living cells leaves every cell dead,
    and unchanged; hence on every board [clear] followed by [update]
    gives a board whose cells are all dead and are those [clear] left. *)
Theorem no_spontaneous_generation (b : Board.t) :
  wf b ->
  (allDead b ->
     exists b', update b = Ok tt b' /\ allDead b' /\ cells b' = cells b) /\
  (exists bc b',
     clear b = Ok tt bc /\ allDead bc /\
     update bc = Ok tt b' /\ allDead b' /\ cells b' = cells bc).
Proof.
  intros Hwf. split; [apply update_allDead; assumption|].
  destruct (clear_spec b Hwf) as (bc & Hrun & Hwfc & Hw & Hh & _ & Hcells).
  assert (allDead bc) as Hdead.
  { intros x y c Hc. destruct (inBounds_cell b x y Hwf) as [c0 Hc0].
    - pose proof (cell_inBounds _ _ _ _ Hwfc Hc) as Hin.
      unfold inBounds in *. rewrite <- Hw, <- Hh. assumption.
    - rewrite (Hcells _ _ _ Hc0) in Hc. injection Hc as <-. reflexivity. }
  destruct (update_allDead bc Hwfc Hdead) as (b' & Hrun' & Hdead' & Heq).
  exists bc, b'. auto.
Qed.

Lemma no_spontaneous_generation_witness :
  (exists b', update (new 2 2) = Ok tt b' /\ allDead b' /\
              cells b' = cells (new 2 2)) /\
  (exists bc b',
     clear tromino = Ok tt bc /\ allDead bc /\
     update bc = Ok tt b' /\ allDead b' /\ cells b' = cells bc).
Proof.
  split.
  - apply (no_spontaneous_generation (new 2 2)).
    + split; vm_compute; repeat constructor.
    + intros x y c Hc. apply cell_new in Hc. subst c. reflexivity.
  - apply (no_spontaneous_generation tromino).
    split; vm_compute; repeat constructor.
Defined.

(** ** Neighbours stay on the board *)

(** C9.  On a board at least one cell wide and high, for a position on the
    board, [getLivingNeighbors] reads only positions on the board, returns
    (it raises no [TypeError]) and its count lies between 0 and 8; on a
    1 x 1 board the count is 0 and the only cell is dead after
    [update]. *)
Theorem neighbors_stay_in_bounds (b : Board.t) (x y : Z) :
  wf b -> 1 <= width b -> 1 <= height b -> inBounds b x y ->
  Forall (fun p => inBounds b p.1 p.2) ((x, y) :: neighborPositions b x y) /\
  (exists n b', getLivingNeighbors x y b = Ok n b' /\ 0 <= n <= 8) /\
  (width b = 1 -> height b = 1 ->
     (exists b', getLivingNeighbors x y b = Ok 0 b') /\
     (exists b' c',
        update b = Ok tt b' /\ cell b' x y = Some c' /\
        Cell.isAlive c' = false)).
Proof.
  intros Hwf Hw Hh Hin. destruct (inBounds_cell _ _ _ Hwf Hin) as [c Hc].
  split; [|split].
  - apply Forall_cons_2; [exact Hin|].
    eapply Forall_impl; [apply neighborPositions_inBounds; exact Hin|].
    intros p [Hp _]. exact Hp.
  - eexists. eexists. split; [apply getLivingNeighbors_spec; eassumption|].
    apply livingNeighborCount_range.
  - intros W1 H1.
    assert (livingNeighborCount b x y = 0) as Hzero.
    { destruct Hin as [Hx Hy].
      unfold livingNeighborCount, livingNeighbors, neighborPositions,
        neighborChecks.
      rewrite W1, H1. assert (x = 0) as -> by lia. assert (y = 0) as -> by lia.
      reflexivity. }
    split.
    + eexists. rewrite (getLivingNeighbors_spec _ _ _ _ Hwf Hc), Hzero.
      reflexivity.
    + destruct (update_spec b Hwf) as (b' & Hrun & _ & _ & _ & Hcells).
      exists b'. eexists. split; [exact Hrun|].
      split; [apply (Hcells _ _ _ Hc)|].
      rewrite pass2_cell_isAlive, Hzero. unfold aliveNext.
      destruct (Cell.isAlive c); reflexivity.
Qed.

Lemma neighbors_stay_in_bounds_witness :
  let b := runOps [OpClickCell 0 0 "#112233"] (new 1 1) in
  Forall (fun p => inBounds b p.1 p.2) ((0, 0) :: neighborPositions b 0 0) /\
  (exists n b', getLivingNeighbors 0 0 b = Ok n b' /\ 0 <= n <= 8) /\
  (width b = 1 -> height b = 1 ->
     (exists b', getLivingNeighbors 0 0 b = Ok 0 b') /\
     (exists b' c',
        update b = Ok tt b' /\ cell b' 0 0 = Some c' /\
        Cell.isAlive c' = false)).
Proof.
  apply (neighbors_stay_in_bounds
           (runOps [OpClickCell 0 0 "#112233"] (new 1 1)) 0 0).
  - split; vm_compute; repeat constructor.
  - vm_compute. discriminate.
  - vm_compute. discriminate.
  - split; split; vm_compute; congruence.
Defined.

(** ** Clicks off the board *)

(** C10.  A click at a position off the board raises [TypeError] and
    leaves the board, hence every cell, as it was: the position is neither
    clamped nor wrapped onto a cell. *)
Theorem click_out_of_bounds (b : Board.t) (x y : Z) (color : string) :
  wf b ->
  x < 0 \/ width b <= x \/ y < 0 \/ height b <= y ->
  clickCell x y color b = Throw TypeError b /\
  forall x' y',
    cell (state_of (clickCell x y color b)) x' y' = cell b x' y'.
Proof.
  intros Hwf Hout.
  assert (clickCell x y color b = Throw TypeError b) as Hthrow.
  { apply onCell_None, outOfBounds_cell; [assumption|].
    unfold inBounds. lia. }
  split; [exact Hthrow|]. rewrite Hthrow. reflexivity.
Qed.

Lemma click_out_of_bounds_witness :
  clickCell 2 0 "#abcdef" tromino = Throw TypeError tromino /\
  forall x' y',
    cell (state_of (clickCell 2 0 "#abcdef" tromino)) x' y' = cell tromino x' y'.
Proof.
  apply (click_out_of_bounds tromino 2 0 "#abcdef").
  - split; vm_compute; repeat constructor.
  - right. left. vm_compute. discriminate.
Defined.

(** * Further properties of the board *)

(** ** The constructor *)

Lemma nextAt_new (w h x y : Z) (v : bool) :
  nextAt (new w h) x y = Some v -> v = false.
Proof.
  unfold nextAt. simpl.
  destruct (index _ x) as [col|] eqn:Hcol; [|discriminate].
  apply index_Some in Hcol as [_ Hcol]. intros [_ Hv]%index_Some.
  rewrite list_lookup_fmap in Hcol.
  destruct (seqZ 0 w !! Z.to_nat x) as [x'|]; [|discriminate].
  simpl in Hcol. injection Hcol as <-.
  rewrite list_lookup_fmap in Hv.
  destruct (seqZ 0 h !! Z.to_nat y) as [y'|]; [|discriminate].
  simpl in Hv. congruence.
Qed.

Lemma outOfBounds_nextAt (b : Board.t) (x y : Z) :
  wf b -> ~ inBounds b x y -> nextAt b x y = None.
Proof.
  intros Hwf Hout. unfold nextAt.
  destruct (index (next b) x) as [col|] eqn:Hcol; [|reflexivity].
  pose proof (index_length _ _ _ Hcol) as Hx.
  apply index_Some in Hcol as [_ Hcol].
  pose proof (wf_next_columns b Hwf) as Hall. rewrite Forall_lookup in Hall.
  specialize (Hall _ _ Hcol). simpl in Hall.
  apply index_outside. rewrite (wf_next b Hwf) in Hx.
  unfold inBounds in Hout. lia.
Qed.

(** X1.  [new Board(width, height)] holds, at every position of the
    [width] x [height] rectangle, a dead black cell of maturity 0.1 that
    knows its own position, and [false] in the staging buffer; it holds
    nothing anywhere else. *)
Theorem constructor_cells (w h x y : Z) :
  width (new w h) = w /\ height (new w h) = h /\
  cell (new w h) x y =
    (if decide (0 <= x < w /\ 0 <= y < h)
     then Some (Cell.mk x y false 0.1%float "#000000")
     else None) /\
  nextAt (new w h) x y =
    (if decide (0 <= x < w /\ 0 <= y < h) then Some false else None).
Proof.
  split; [reflexivity|]. split; [reflexivity|].
  pose proof (wf_new w h) as Hwf.
  destruct (decide (0 <= x < w /\ 0 <= y < h)) as [Hin|Hout].
  - destruct (inBounds_cell (new w h) x y Hwf Hin) as [c Hc].
    destruct (inBounds_nextAt (new w h) x y Hwf Hin) as [v Hv].
    rewrite Hc, Hv. apply cell_new in Hc. apply nextAt_new in Hv.
    subst. split; reflexivity.
  - split.
    + apply outOfBounds_cell; assumption.
    + apply outOfBounds_nextAt; assumption.
Qed.

Lemma forEach_nothing {A} (l : list A) (b : Board.t) :
  forEach l (fun _ => ret tt) b = Ok tt b.
Proof.
  induction l as [|a l IH]; [reflexivity|]. simpl. unfold bind, ret at 1.
  exact IH.
Qed.

Lemma grid_loop_empty (w h : Z) (body : Z -> Z -> M unit) (b : Board.t) :
  w <= 0 \/ h <= 0 ->
  for_upto w (fun x => for_upto h (body x)) b = Ok tt b.
Proof.
  intros [Hw|Hh]; unfold for_upto.
  - rewrite (seqZ_nil 0 w) by lia. reflexivity.
  - rewrite (seqZ_nil 0 h) by lia. simpl. apply forEach_nothing.
Qed.

(** X2.  A board built with a width or a height below 1 has no cell:
    [update] and [clear] return at once and leave it as it is, and every
    click raises [TypeError]. *)
Theorem empty_board_inert (w h : Z) :
  w <= 0 \/ h <= 0 ->
  update (new w h) = Ok tt (new w h) /\
  clear (new w h) = Ok tt (new w h) /\
  forall x y color,
    clickCell x y color (new w h) = Throw TypeError (new w h).
Proof.
  intros Hempty. split; [|split].
  - unfold update, findNext, applyNext, bind, get. cbn [width height].
    rewrite (grid_loop_empty w h _ _ Hempty).
    apply (grid_loop_empty w h _ _ Hempty).
  - unfold clear, bind, get. cbn [width height].
    apply (grid_loop_empty w h _ _ Hempty).
  - intros x y color. apply onCell_None.
    apply outOfBounds_cell; [apply wf_new|].
    unfold inBounds. simpl. lia.
Qed.

Lemma empty_board_inert_witness :
  update (new 0 5) = Ok tt (new 0 5) /\
  clear (new 0 5) = Ok tt (new 0 5) /\
  forall x y color,
    clickCell x y color (new 0 5) = Throw TypeError (new 0 5).
Proof.
  apply (empty_board_inert 0 5). left. lia.
Defined.

(** ** What [update] does to a cell *)

Lemma update_cells_and_next (b : Board.t) :
  wf b ->
  exists b',
    update b = Ok tt b' /\ wf b' /\
    width b' = width b /\ height b' = height b /\
    forall x y c, cell b x y = Some c ->
      let v := aliveNext (Cell.isAlive c) (livingNeighborCount b x y) in
      cell b' x y = Some (pass2_cell v (pass1_cell b x y c)) /\
      nextAt b' x y = Some v.
Proof.
  intros Hwf.
  destruct (findNext_spec b Hwf) as (b1 & Hrun1 & Hwf1 & Hw1 & Hh1 & Hcells1).
  destruct (applyNext_spec b1 Hwf1)
    as (b2 & Hrun2 & Hwf2 & Hw2 & Hh2 & Hn2 & Hcells2).
  exists b2. unfold update, bind. rewrite Hrun1, Hrun2.
  split; [reflexivity|]. split; [assumption|].
  split; [congruence|]. split; [congruence|].
  intros x y c Hc. destruct (Hcells1 _ _ _ Hc) as [Hc1 Hn1]. cbv zeta. split.
  - rewrite (Hcells2 _ _ _ Hc1). unfold staged. rewrite Hn1. reflexivity.
  - unfold nextAt. rewrite Hn2. exact Hn1.
Qed.

(** X3.  What one [update] does to the cell at [(x, y)], by its state and
    the count [n] of its living neighbours before the call: a living cell
    with [n] in {2, 3} matures and keeps its colour; any other living cell
    is killed and keeps its colour; a dead cell with [n = 3] comes alive in
    the inherited colour with the maturity it had; any other dead cell is
    left as it is. *)
Theorem update_cell_cases (b : Board.t) (x y : Z) (c : Cell.t) :
  wf b -> cell b x y = Some c ->
  exists b' c',
    update b = Ok tt b' /\ cell b' x y = Some c' /\
    let n := livingNeighborCount b x y in
    (Cell.isAlive c = true -> n = 2 \/ n = 3 -> c' = Cell.mature c) /\
    (Cell.isAlive c = true -> n <> 2 -> n <> 3 -> c' = Cell.kill c) /\
    (Cell.isAlive c = false -> n = 3 ->
       c' = Cell.set_isAlive true (Cell.set_color (inheritColor b x y) c)) /\
    (Cell.isAlive c = false -> n <> 3 -> c' = c).
Proof.
  intros Hwf Hc.
  destruct (update_spec b Hwf) as (b' & Hrun & _ & _ & _ & Hcells).
  exists b'. eexists. split; [exact Hrun|]. split; [apply (Hcells _ _ _ Hc)|].
  cbv zeta. unfold pass1_cell, pass2_cell, aliveNext.
  destruct (Cell.isAlive c) eqn:Ha; simpl.
  - rewrite Ha. simpl. split; [|split; [|split]]; try discriminate.
    + intros _ [->| ->]; reflexivity.
    + intros _ H2 H3. apply Z.eqb_neq in H2, H3. rewrite H2, H3. reflexivity.
  - split; [|split; [|split]]; try discriminate.
    + intros _ ->. simpl. rewrite Ha. reflexivity.
    + intros _ H3. apply Z.eqb_neq in H3. rewrite H3. simpl. rewrite Ha.
      reflexivity.
Qed.

Lemma update_cell_cases_witness :
  exists b' c',
    update tromino = Ok tt b' /\ cell b' 0 0 = Some c' /\
    let c := Cell.mk 0 0 true 0.1%float "#112233" in
    let n := livingNeighborCount tromino 0 0 in
    (Cell.isAlive c = true -> n = 2 \/ n = 3 -> c' = Cell.mature c) /\
    (Cell.isAlive c = true -> n <> 2 -> n <> 3 -> c' = Cell.kill c) /\
    (Cell.isAlive c = false -> n = 3 ->
       c' = Cell.set_isAlive true
              (Cell.set_color (inheritColor tromino 0 0) c)) /\
    (Cell.isAlive c = false -> n <> 3 -> c' = c).
Proof.
  apply (update_cell_cases tromino 0 0 (Cell.mk 0 0 true 0.1%float "#112233")).
  - split; vm_compute; repeat constructor.
  - reflexivity.
Defined.

(** X4.  When [update] returns, the staging buffer holds at every position
    the alive status the cell there now has. *)
Theorem staging_matches_cells (b : Board.t) :
  wf b ->
  exists b',
    update b = Ok tt b' /\
    forall x y c', cell b' x y = Some c' ->
      nextAt b' x y = Some (Cell.isAlive c').
Proof.
  intros Hwf.
  destruct (update_cells_and_next b Hwf)
    as (b' & Hrun & Hwf' & Hw & Hh & Hcells).
  exists b'. split; [exact Hrun|]. intros x y c' Hc'.
  destruct (inBounds_cell b x y Hwf) as [c Hc].
  { pose proof (cell_inBounds _ _ _ _ Hwf' Hc') as Hin.
    unfold inBounds in *. rewrite <- Hw, <- Hh. assumption. }
  destruct (Hcells _ _ _ Hc) as [Hcell Hnext]. rewrite Hnext.
  rewrite Hcell in Hc'. injection Hc' as <-.
  rewrite pass2_cell_isAlive. reflexivity.
Qed.

Lemma staging_matches_cells_witness :
  exists b',
    update tromino = Ok tt b' /\
    forall x y c', cell b' x y = Some c' ->
      nextAt b' x y = Some (Cell.isAlive c').
Proof.
  apply (staging_matches_cells tromino).
  split; vm_compute; repeat constructor.
Defined.

(** X5.  Colours and maturities have no part in which cells live: two
    boards of the same size with the same living cells have the same
    living cells after [update]. *)
Theorem life_ignores_colors (b1 b2 : Board.t) :
  wf b1 -> wf b2 ->
  width b1 = width b2 -> height b1 = height b2 ->
  (forall x y c1 c2, cell b1 x y = Some c1 -> cell b2 x y = Some c2 ->
     Cell.isAlive c1 = Cell.isAlive c2) ->
  exists b1' b2',
    update b1 = Ok tt b1' /\ update b2 = Ok tt b2' /\
    forall x y c1 c2, cell b1' x y = Some c1 -> cell b2' x y = Some c2 ->
      Cell.isAlive c1 = Cell.isAlive c2.
Proof.
  intros Hwf1 Hwf2 Hw Hh Hsame.
  set (f := fun x y => isAliveAt b1 (x, y)).
  assert (hasPattern b1 f) as Hp1.
  { intros x y c Hc. unfold f, isAliveAt. simpl. rewrite Hc. reflexivity. }
  assert (hasPattern b2 f) as Hp2.
  { intros x y c2 Hc2. destruct (inBounds_cell b1 x y Hwf1) as [c1 Hc1].
    - pose proof (cell_inBounds _ _ _ _ Hwf2 Hc2) as Hin.
      unfold inBounds in *. rewrite Hw, Hh. assumption.
    - rewrite <- (Hsame _ _ _ _ Hc1 Hc2). apply (Hp1 _ _ _ Hc1). }
  destruct (update_pattern b1 f Hwf1 Hp1) as (b1' & Hrun1 & _ & _ & _ & Hq1).
  destruct (update_pattern b2 f Hwf2 Hp2) as (b2' & Hrun2 & _ & _ & _ & Hq2).
  exists b1', b2'. split; [assumption|]. split; [assumption|].
  intros x y c1 c2 Hc1 Hc2.
  rewrite (Hq1 _ _ _ Hc1), (Hq2 _ _ _ Hc2), Hw, Hh. reflexivity.
Qed.

Lemma life_ignores_colors_witness :
  let b2 := runOps [OpClickCell 0 0 "#ffffff"; OpClickCell 1 0 "#000000";
                    OpClickCell 0 1 "#abcdef"; OpUpdate; OpUpdate;
                    OpClickCell 1 1 "#123456"; OpClickCell 1 1 "#123456"]
                   (new 2 2) in
  exists b1' b2',
    update tromino = Ok tt b1' /\ update b2 = Ok tt b2' /\
    forall x y c1 c2, cell b1' x y = Some c1 -> cell b2' x y = Some c2 ->
      Cell.isAlive c1 = Cell.isAlive c2.
Proof.
  cbv zeta. apply life_ignores_colors.
  - split; vm_compute; repeat constructor.
  - split; vm_compute; repeat constructor.
  - reflexivity.
  - reflexivity.
  - intros x y c1 c2 Hc1 Hc2.
    assert (inBounds tromino x y) as [Hx Hy].
    { apply (cell_inBounds tromino x y c1); [|exact Hc1].
      split; vm_compute; repeat constructor. }
    change (width tromino) with 2 in Hx. change (height tromino) with 2 in Hy.
    assert (x = 0 \/ x = 1) as [-> | ->] by lia;
      assert (y = 0 \/ y = 1) as [-> | ->] by lia;
      vm_compute in Hc1, Hc2; injection Hc1 as <-; injection Hc2 as <-;
      reflexivity.
Defined.

(** ** Cells stay where they are *)

Lemma pass2_cell_position (v : bool) (c : Cell.t) :
  Cell.x (pass2_cell v c) = Cell.x c /\ Cell.y (pass2_cell v c) = Cell.y c.
Proof.
  unfold pass2_cell, Cell.mature.
  destruct (Cell.isAlive c), v; simpl;
    try destruct (PrimFloat.ltb (Cell.maturity c) 1); split; reflexivity.
Qed.

Lemma pass1_cell_position (b : Board.t) (x y : Z) (c : Cell.t) :
  Cell.x (pass1_cell b x y c) = Cell.x c /\
  Cell.y (pass1_cell b x y c) = Cell.y c.
Proof.
  unfold pass1_cell.
  destruct (negb (Cell.isAlive c) && (livingNeighborCount b x y =? 3));
    split; reflexivity.
Qed.

Lemma pass_cells_position (b : Board.t) (x y : Z) (v : bool) (c : Cell.t) :
  Cell.x (pass2_cell v (pass1_cell b x y c)) = Cell.x c /\
  Cell.y (pass2_cell v (pass1_cell b x y c)) = Cell.y c.
Proof.
  destruct (pass2_cell_position v (pass1_cell b x y c)) as [-> ->].
  apply pass1_cell_position.
Qed.

Lemma onCell_preserves_at (P : Z -> Z -> Cell.t -> Prop)
    (f : Cell.t -> Cell.t) (b : Board.t) (x y : Z) :
  (forall c, P x y c -> P x y (f c)) ->
  (forall x' y' c, cell b x' y' = Some c -> P x' y' c) ->
  forall x' y' c, cell (state_of (onCell x y f b)) x' y' = Some c -> P x' y' c.
Proof.
  intros Hf HP. destruct (cell b x y) as [c0|] eqn:Hc0.
  - rewrite (onCell_Some _ _ _ _ _ Hc0). simpl.
    intros x' y' c. rewrite (cell_write_cell _ _ _ _ _ _ _ Hc0).
    destruct (decide (x' = x /\ y' = y)) as [[-> ->]|Hne].
    + intros [= <-]. apply Hf. apply HP. assumption.
    + apply HP.
  - rewrite (onCell_None _ _ _ _ Hc0). simpl. exact HP.
Qed.

(** X6.  In every board the program can reach, the cell stored at
    [(x, y)] carries [x] and [y] in its own fields: no call moves a cell
    or changes the position it draws itself at. *)
Theorem cells_know_their_place (b : Board.t) (x y : Z) (c : Cell.t) :
  reachable b -> cell b x y = Some c -> Cell.x c = x /\ Cell.y c = y.
Proof.
  intros Hreach. revert x y c.
  induction Hreach as [w h|b o Hreach IH].
  - intros x y c ->%cell_new. split; reflexivity.
  - pose proof (reachable_invariant b Hreach) as [Hwf _].
    destruct o as [|cx cy color|cx cy|]; simpl.
    + destruct (update_spec b Hwf) as (b' & -> & Hwf' & Hw & Hh & Hcells).
      simpl. intros x y c Hc. destruct (inBounds_cell b x y Hwf) as [c0 Hc0].
      { pose proof (cell_inBounds _ _ _ _ Hwf' Hc) as Hin.
        unfold inBounds in *. rewrite <- Hw, <- Hh. assumption. }
      rewrite (Hcells _ _ _ Hc0) in Hc. injection Hc as <-.
      destruct (pass_cells_position b x y
                  (aliveNext (Cell.isAlive c0) (livingNeighborCount b x y)) c0)
        as [-> ->].
      apply (IH _ _ _ Hc0).
    + unfold clickCell.
      apply (onCell_preserves_at (fun x y c => Cell.x c = x /\ Cell.y c = y));
        [|exact IH].
      intros c Hc. unfold Cell.toggle.
      destruct (Cell.isAlive c); [|exact Hc].
      destruct (String.eqb (Cell.color c) color); exact Hc.
    + apply (onCell_preserves_at (fun x y c => Cell.x c = x /\ Cell.y c = y));
        [|exact IH].
      intros c Hc. exact Hc.
    + destruct (clear_spec b Hwf) as (b' & -> & Hwf' & Hw & Hh & _ & Hcells).
      simpl. intros x y c Hc. destruct (inBounds_cell b x y Hwf) as [c0 Hc0].
      { pose proof (cell_inBounds _ _ _ _ Hwf' Hc) as Hin.
        unfold inBounds in *. rewrite <- Hw, <- Hh. assumption. }
      rewrite (Hcells _ _ _ Hc0) in Hc. injection Hc as <-.
      apply (IH _ _ _ Hc0).
Qed.

Lemma cells_know_their_place_witness :
  let b := runOps [OpUpdate; OpClickCell 1 1 "#abcdef"; OpClear; OpUpdate]
                  tromino in
  cell b 1 0 = Some (Cell.mk 1 0 false 0.1%float "#445566") /\
  Cell.x (Cell.mk 1 0 false 0.1%float "#445566") = 1 /\
  Cell.y (Cell.mk 1 0 false 0.1%float "#445566") = 0.
Proof.
  cbv zeta. split; [vm_compute; reflexivity|].
  apply (cells_know_their_place
           (runOps [OpUpdate; OpClickCell 1 1 "#abcdef"; OpClear; OpUpdate]
                   tromino) 1 0).
  - unfold tromino, runOps. cbn [fold_left].
    do 7 apply reachable_step. apply reachable_new.
  - vm_compute. reflexivity.
Defined.

(** ** The neighbourhood *)




Lemma livingNeighborCount_le (b : Board.t) (x y : Z) :
  livingNeighborCount b x y <= Z.of_nat (length (neighborPositions b x y)).
Proof.
  unfold livingNeighborCount, livingNeighbors.
  pose proof (List.filter_length_le (isAliveAt b) (neighborPositions b x y)).
  lia.
Qed.



(** X9.  On a board one cell wide or one cell high no cell is ever born:
    a cell alive after [update] was alive before it, with exactly two
    living neighbours. *)
Theorem no_birth_on_a_line (b : Board.t) :
  wf b -> width b = 1 \/ height b = 1 ->
  exists b',
    update b = Ok tt b' /\
    forall x y c c', cell b x y = Some c -> cell b' x y = Some c' ->
      Cell.isAlive c' = true ->
      Cell.isAlive c = true /\ livingNeighborCount b x y = 2.
Proof.
  intros Hwf Hline.
  destruct (update_spec b Hwf) as (b' & Hrun & _ & _ & _ & Hcells).
  exists b'. split; [exact Hrun|]. intros x y c c' Hc Hc' Halive.
  rewrite (Hcells _ _ _ Hc) in Hc'. injection Hc' as <-.
  rewrite pass2_cell_isAlive in Halive.
  pose proof (cell_inBounds _ _ _ _ Hwf Hc) as [Hx Hy].
  assert (0 <= livingNeighborCount b x y <= 2) as Hn.
  { split; [apply livingNeighborCount_range|].
    pose proof (livingNeighborCount_le b x y) as Hle.
    unfold neighborPositions, neighborChecks in Hle.
    destruct (Z.eqb_spec x 0), (Z.eqb_spec y 0),
      (Z.eqb_spec x (width b - 1)), (Z.eqb_spec y (height b - 1));
      simpl in Hle; lia. }
  unfold aliveNext in Halive.
  apply orb_true_iff in Halive as [[Ha H2%Z.eqb_eq]%andb_true_iff|H3%Z.eqb_eq].
  - auto.
  - lia.
Qed.

Lemma no_birth_on_a_line_witness :
  let b := runOps [OpClickCell 0 1 "#112233"; OpClickCell 0 2 "#112233";
                   OpClickCell 0 3 "#112233"] (new 1 5) in
  exists b',
    update b = Ok tt b' /\
    forall x y c c', cell b x y = Some c -> cell b' x y = Some c' ->
      Cell.isAlive c' = true ->
      Cell.isAlive c = true /\ livingNeighborCount b x y = 2.
Proof.
  cbv zeta. apply no_birth_on_a_line.
  - split; vm_compute; repeat constructor.
  - left. reflexivity.
Defined.

(** ** [getLivingNeighbors] called again, and called off the board *)

Lemma sameLife_after_recolor (b : Board.t) (x y : Z) (c : Cell.t) :
  wf b -> cell b x y = Some c ->
  sameLife b (write_cell x y (pass1_cell b x y c) b).
Proof.
  intros Hwf Hc. split; [reflexivity|]. split; [reflexivity|].
  intros [px py]. unfold isAliveAt, colorAt. simpl.
  rewrite (cell_write_cell _ _ _ _ _ _ _ Hc).
  destruct (decide (px = x /\ py = y)) as [[-> ->]|Hne]; [|auto].
  rewrite Hc, pass1_cell_isAlive. split; [reflexivity|].
  intros Ha. rewrite pass1_cell_alive by assumption. reflexivity.
Qed.

(** X10.  A second call of [getLivingNeighbors] for the same position
    returns the same count and changes nothing more: the expression of
    [update] that calls it twice writes no other colour than a single call
    would. *)
Theorem getLivingNeighbors_again (b : Board.t) (x y : Z) :
  wf b -> inBounds b x y ->
  exists n b',
    getLivingNeighbors x y b = Ok n b' /\
    getLivingNeighbors x y b' = Ok n b'.
Proof.
  intros Hwf Hin. destruct (inBounds_cell _ _ _ Hwf Hin) as [c Hc].
  pose proof (sameLife_after_recolor _ _ _ _ Hwf Hc) as Hsame.
  set (b' := write_cell x y (pass1_cell b x y c) b) in *.
  assert (wf b') as Hwf' by (apply wf_write_cell; assumption).
  assert (cell b' x y = Some (pass1_cell b x y c)) as Hc'.
  { eapply cell_write_cell_same. eassumption. }
  exists (livingNeighborCount b x y), b'.
  split; [apply getLivingNeighbors_spec; assumption|].
  rewrite (getLivingNeighbors_spec _ _ _ _ Hwf' Hc').
  unfold livingNeighborCount at 1.
  rewrite (sameLife_livingNeighbors _ _ _ _ Hsame).
  fold (livingNeighborCount b x y). f_equal.
  rewrite (sameLife_pass1_cell _ _ _ _ _ Hsame).
  assert (pass1_cell b x y (pass1_cell b x y c) = pass1_cell b x y c) as ->.
  { unfold pass1_cell.
    destruct (negb (Cell.isAlive c) && (livingNeighborCount b x y =? 3)) eqn:E;
      simpl; rewrite E; reflexivity. }
  apply write_cell_id. assumption.
Qed.

Lemma getLivingNeighbors_again_witness :
  exists n b',
    getLivingNeighbors 1 1 tromino = Ok n b' /\
    getLivingNeighbors 1 1 b' = Ok n b'.
Proof.
  apply (getLivingNeighbors_again tromino 1 1).
  - split; vm_compute; repeat constructor.
  - split; vm_compute; split; congruence.
Defined.

(** X11.  For a position off the board [getLivingNeighbors] raises
    [TypeError] and changes nothing. *)
Theorem getLivingNeighbors_off_board (b : Board.t) (x y : Z) :
  wf b -> ~ inBounds b x y ->
  getLivingNeighbors x y b = Throw TypeError b.
Proof.
  intros Hwf Hout. unfold getLivingNeighbors, bind, get.
  rewrite (cellAt_None _ _ _ (outOfBounds_cell _ _ _ Hwf Hout)). reflexivity.
Qed.

Lemma getLivingNeighbors_off_board_witness :
  getLivingNeighbors 0 2 tromino = Throw TypeError tromino.
Proof.
  apply (getLivingNeighbors_off_board tromino 0 2).
  - split; vm_compute; repeat constructor.
  - intros [_ H]. vm_compute in H. destruct H as [_ H]. discriminate H.
Defined.

(** ** Clicks and [clear] *)

(** X12.  A click on a cell of the board returns, and changes nothing but
    that cell: every other cell, the staging buffer and the size of the
    board are as before. *)
Theorem click_changes_one_cell (b : Board.t) (x y : Z) (color : string) :
  wf b -> inBounds b x y ->
  exists b',
    clickCell x y color b = Ok tt b' /\
    width b' = width b /\ height b' = height b /\ next b' = next b /\
    forall x' y', (x', y') <> (x, y) -> cell b' x' y' = cell b x' y'.
Proof.
  intros Hwf Hin. destruct (inBounds_cell _ _ _ Hwf Hin) as [c Hc].
  eexists. split; [apply (onCell_Some _ _ _ _ _ Hc)|].
  repeat (split; [reflexivity|]). intros x' y' Hne.
  eapply cell_write_cell_other; eassumption.
Qed.

Lemma click_changes_one_cell_witness :
  exists b',
    clickCell 1 1 "#abcdef" tromino = Ok tt b' /\
    width b' = width tromino /\ height b' = height tromino /\
    next b' = next tromino /\
    forall x' y', (x', y') <> (1, 1) -> cell b' x' y' = cell tromino x' y'.
Proof.
  apply (click_changes_one_cell tromino 1 1 "#abcdef").
  - split; vm_compute; repeat constructor.
  - split; vm_compute; split; congruence.
Defined.

(** X13.  Two clicks with the same colour on a cell of the board leave it
    in that colour with maturity 0.1; it is alive afterwards exactly when
    it was alive in that colour before.  So the second click undoes the
    first on a dead cell, but kills a living cell of another colour. *)
Theorem double_click (b : Board.t) (x y : Z) (c : Cell.t) (color : string) :
  wf b -> cell b x y = Some c ->
  exists b1 b2 c2,
    clickCell x y color b = Ok tt b1 /\
    clickCell x y color b1 = Ok tt b2 /\
    cell b2 x y = Some c2 /\
    Cell.color c2 = color /\ Cell.maturity c2 = 0.1%float /\
    (Cell.isAlive c2 = true <->
     Cell.isAlive c = true /\ Cell.color c = color).
Proof.
  intros Hwf Hc.
  pose proof (cell_write_cell_same b x y c (Cell.toggle color c) Hc) as Hc1.
  eexists. eexists. eexists.
  split; [apply (onCell_Some _ _ _ _ _ Hc)|].
  split; [apply (onCell_Some _ _ _ _ _ Hc1)|].
  split; [eapply cell_write_cell_same; eassumption|].
  unfold Cell.toggle.
  destruct (Cell.isAlive c) eqn:Ha.
  - destruct (String.eqb_spec (Cell.color c) color) as [E|E]; simpl.
    + repeat split; auto.
    + rewrite Ha, String.eqb_refl. simpl.
      repeat split; try reflexivity; try discriminate.
      intros [_ ?]. contradiction.
  - simpl. rewrite String.eqb_refl. simpl.
    repeat split; try reflexivity; try discriminate.
    intros [? _]. discriminate.
Qed.

Lemma double_click_witness :
  exists b1 b2 c2,
    clickCell 0 0 "#abcdef" tromino = Ok tt b1 /\
    clickCell 0 0 "#abcdef" b1 = Ok tt b2 /\
    cell b2 0 0 = Some c2 /\
    Cell.color c2 = "#abcdef"%string /\ Cell.maturity c2 = 0.1%float /\
    (Cell.isAlive c2 = true <->
     Cell.isAlive (Cell.mk 0 0 true 0.1%float "#112233") = true /\
     Cell.color (Cell.mk 0 0 true 0.1%float "#112233") = "#abcdef"%string).
Proof.
  apply (double_click tromino 0 0 (Cell.mk 0 0 true 0.1%float "#112233")
           "#abcdef").
  - split; vm_compute; repeat constructor.
  - reflexivity.
Defined.

(** X14.  [clear] returns and leaves every cell dead with maturity 0.1,
    in the colour and at the position it had; it does not touch the
    staging buffer, and a second [clear] changes no cell. *)
Theorem clear_resets (b : Board.t) :
  wf b ->
  exists b',
    clear b = Ok tt b' /\ next b' = next b /\
    (forall x y c, cell b x y = Some c ->
       cell b' x y =
         Some (Cell.mk (Cell.x c) (Cell.y c) false 0.1%float (Cell.color c))) /\
    exists b'', clear b' = Ok tt b'' /\ cells b'' = cells b'.
Proof.
  intros Hwf.
  destruct (clear_spec b Hwf) as (b' & Hrun & Hwf' & Hw & Hh & Hn & Hcells).
  exists b'. split; [exact Hrun|]. split; [exact Hn|].
  split; [exact Hcells|].
  destruct (clear_spec b' Hwf') as (b'' & Hrun' & Hwf'' & Hw' & Hh' & _ & Hcells').
  exists b''. split; [exact Hrun'|].
  apply cells_ext; try assumption. intros x y.
  destruct (cell b' x y) as [c'|] eqn:Hc'.
  - rewrite (Hcells' _ _ _ Hc'). f_equal.
    destruct (inBounds_cell b x y Hwf) as [c Hc].
    { pose proof (cell_inBounds _ _ _ _ Hwf' Hc') as Hin.
      unfold inBounds in *. rewrite <- Hw, <- Hh. assumption. }
    rewrite (Hcells _ _ _ Hc) in Hc'. injection Hc' as <-. reflexivity.
  - apply outOfBounds_cell; [assumption|]. intros Hin.
    destruct (inBounds_cell b' x y Hwf') as [c Hc].
    + unfold inBounds in *. rewrite <- Hw', <- Hh'. assumption.
    + congruence.
Qed.

Lemma clear_resets_witness :
  exists b',
    clear tromino = Ok tt b' /\ next b' = next tromino /\
    (forall x y c, cell tromino x y = Some c ->
       cell b' x y =
         Some (Cell.mk (Cell.x c) (Cell.y c) false 0.1%float (Cell.color c))) /\
    exists b'', clear b' = Ok tt b'' /\ cells b'' = cells b'.
Proof.
  apply (clear_resets tromino). split; vm_compute; repeat constructor.
Defined.

(** ** The maturities that occur *)

Lemma reachable_cells (P : Cell.t -> Prop) :
  (forall x y, P (Cell.new x y None)) ->
  (forall c, P c -> P (Cell.kill c)) ->
  (forall c, P c -> P (Cell.mature c)) ->
  (forall c, P c -> P (Cell.set_isAlive true c)) ->
  (forall c color, P c -> P (Cell.set_color color c)) ->
  forall b, reachable b -> forall x y c, cell b x y = Some c -> P c.
Proof.
  intros Hnew Hkill Hmature Hborn Hcolor b Hreach.
  induction Hreach as [w h|b o Hreach IH].
  - intros x y c ->%cell_new. apply Hnew.
  - pose proof (reachable_invariant b Hreach) as [Hwf _].
    destruct o as [|cx cy color|cx cy|]; simpl.
    + destruct (update_spec b Hwf) as (b' & -> & Hwf' & Hw & Hh & Hcells).
      simpl. intros x y c Hc. destruct (inBounds_cell b x y Hwf) as [c0 Hc0].
      { pose proof (cell_inBounds _ _ _ _ Hwf' Hc) as Hin.
        unfold inBounds in *. rewrite <- Hw, <- Hh. assumption. }
      rewrite (Hcells _ _ _ Hc0) in Hc. injection Hc as <-.
      assert (P (pass1_cell b x y c0)) as H1.
      { unfold pass1_cell.
        destruct (negb (Cell.isAlive c0) && (livingNeighborCount b x y =? 3));
          [apply Hcolor|]; apply (IH _ _ _ Hc0). }
      unfold pass2_cell.
      destruct (Cell.isAlive (pass1_cell b x y c0) && _); [auto|].
      destruct (Cell.isAlive (pass1_cell b x y c0) && _); [auto|].
      destruct (negb (Cell.isAlive (pass1_cell b x y c0)) && _); auto.
    + unfold clickCell.
      apply (onCell_preserves_at (fun _ _ c => P c)); [|exact IH].
      intros c Hc. unfold Cell.toggle.
      destruct (Cell.isAlive c); [|auto].
      destruct (String.eqb (Cell.color c) color); auto.
    + apply (onCell_preserves_at (fun _ _ c => P c)); [|exact IH]. auto.
    + destruct (clear_spec b Hwf) as (b' & -> & Hwf' & Hw & Hh & _ & Hcells).
      simpl. intros x y c Hc. destruct (inBounds_cell b x y Hwf) as [c0 Hc0].
      { pose proof (cell_inBounds _ _ _ _ Hwf' Hc) as Hin.
        unfold inBounds in *. rewrite <- Hw, <- Hh. assumption. }
      rewrite (Hcells _ _ _ Hc0) in Hc. injection Hc as <-.
      apply Hkill. apply (IH _ _ _ Hc0).
Qed.

Lemma ladder_step (c : Cell.t) :
  In (Cell.maturity c) ladder -> In (Cell.maturity (Cell.mature c)) ladder.
Proof.
  unfold Cell.mature. intros H.
  assert (In (if PrimFloat.ltb (Cell.maturity c) 1
              then PrimFloat.add (Cell.maturity c) 0.1 else Cell.maturity c)
             ladder) as Hstep.
  { revert H. generalize (Cell.maturity c). intros m H. simpl in H.
    repeat (destruct H as [<-|H];
            [vm_compute; repeat (first [left; reflexivity | right])|]).
    contradiction. }
  destruct (PrimFloat.ltb (Cell.maturity c) 1); exact Hstep.
Qed.

Lemma ladder_bounds (m : float) :
  In m ladder ->
  PrimFloat.leb 0.1 m = true /\ PrimFloat.leb m 1.0999999999999999 = true.
Proof.
  intros H. simpl in H.
  repeat (destruct H as [<-|H]; [split; vm_compute; reflexivity|]).
  contradiction.
Qed.

(** X15.  In every board the program can reach, the maturity of every
    cell is one of the eleven binary64 values that repeated addition of 0.1
    runs through from 0.1 to 1.0999999999999999: it is never below 0.1 and
    never above 1.0999999999999999. *)
Theorem maturity_on_the_ladder (b : Board.t) (x y : Z) (c : Cell.t) :
  reachable b -> cell b x y = Some c ->
  In (Cell.maturity c) ladder /\
  PrimFloat.leb 0.1 (Cell.maturity c) = true /\
  PrimFloat.leb (Cell.maturity c) 1.0999999999999999 = true.
Proof.
  intros Hreach Hc.
  assert (In (Cell.maturity c) ladder) as Hin.
  { apply (reachable_cells (fun c => In (Cell.maturity c) ladder))
      with (b := b) (x := x) (y := y); try assumption.
    - intros x0 y0. left. reflexivity.
    - intros c0 _. left. reflexivity.
    - apply ladder_step.
    - intros c0 H. exact H.
    - intros c0 color H. exact H. }
  split; [exact Hin|]. apply ladder_bounds. exact Hin.
Qed.

Lemma maturity_on_the_ladder_witness :
  let b := generations 4 tromino in
  let c := Cell.mk 1 1 true 0.4%float "#772266" in
  cell b 1 1 = Some c /\
  In (Cell.maturity c) ladder /\
  PrimFloat.leb 0.1 (Cell.maturity c) = true /\
  PrimFloat.leb (Cell.maturity c) 1.0999999999999999 = true.
Proof.
  cbv zeta. split; [vm_compute; reflexivity|].
  apply (maturity_on_the_ladder (generations 4 tromino) 1 1).
  - unfold generations, tromino, runOps. cbn [repeat fold_left].
    do 7 apply reachable_step. apply reachable_new.
  - vm_compute. reflexivity.
Defined.

(** * The page *)

Lemma runOp_size (b : Board.t) (o : Op) :
  wf b ->
  width (state_of (runOp o b)) = width b /\
  height (state_of (runOp o b)) = height b.
Proof.
  intros Hwf. destruct o as [|x y color|x y|]; simpl.
  - destruct (update_spec b Hwf) as (b' & -> & _ & Hw & Hh & _). auto.
  - unfold clickCell. destruct (cell b x y) as [c|] eqn:Hc.
    + rewrite (onCell_Some _ _ _ _ _ Hc). auto.
    + rewrite (onCell_None _ _ _ _ Hc). auto.
  - destruct (cell b x y) as [c|] eqn:Hc.
    + rewrite (onCell_Some _ _ _ _ _ Hc). auto.
    + rewrite (onCell_None _ _ _ _ Hc). auto.
  - destruct (clear_spec b Hwf) as (b' & -> & _ & Hw & Hh & _). auto.
Qed.

Lemma onBoard_board (m : M unit) (k : App.t -> App.t) (a : App.t) :
  (forall a', App.board (k a') = App.board a') ->
  App.board (App.state (App.onBoard m k a)) = state_of (m (App.board a)).
Proof.
  intros Hk. unfold App.onBoard.
  destruct (m (App.board a)) as [[] b|e b]; simpl; [|reflexivity].
  rewrite Hk. reflexivity.
Qed.

Lemma pause_board (a : App.t) : App.board (App.pause a) = App.board a.
Proof. unfold App.pause. destruct (App.running a); reflexivity. Qed.

Lemma handle_board (e : App.Event) (a : App.t) :
  App.board (App.state (App.handle e a)) = App.board a \/
  (exists o, App.board (App.state (App.handle e a))
             = state_of (runOp o (App.board a))) \/
  (exists w h, App.board (App.state (App.handle e a)) = new w h).
Proof.
  destruct e as [| | |w h|px py color]; simpl.
  - unfold App.gameLoop. destruct (App.running a); [|left; reflexivity].
    right. left. exists OpUpdate. apply onBoard_board. reflexivity.
  - left. reflexivity.
  - right. left. exists OpClear. apply onBoard_board. apply pause_board.
  - unfold App.createBoard.
    destruct (App.belowOne w || App.belowOne h); [left; reflexivity|].
    destruct w as [w| | |], h as [h| | |]; simpl;
      try (left; reflexivity);
      right; right; eexists; eexists; rewrite pause_board; reflexivity.
  - right. left.
    exists (OpClickCell (px / App.CELL_SIZE) (py / App.CELL_SIZE) color).
    apply onBoard_board. reflexivity.
Qed.

(** X16.  Whatever the page has done since the script set up its 50 x 30
    board (timer ticks, presses of play/pause, [clearBoard], [createBoard]
    with any text in its fields, presses on the canvas), the board is one
    the board's own methods reach from a constructor call, and neither the
    timer's [gameLoop] nor [clearBoard] raises an exception. *)
Theorem page_keeps_board_sound (caption : string) (a : App.t) :
  App.reachable caption a ->
  reachable (App.board a) /\
  (exists a', App.gameLoop a = App.Done a') /\
  (exists a', App.clearBoard a = App.Done a').
Proof.
  intros Hreach.
  assert (reachable (App.board a)) as Hb.
  { induction Hreach as [|a e _ Hb].
    - simpl. apply reachable_new.
    - destruct (handle_board e a) as [-> |[[o ->]|(w & h & ->)]].
      + assumption.
      + apply reachable_step. assumption.
      + apply reachable_new. }
  split; [assumption|].
  pose proof (reachable_invariant _ Hb) as [Hwf _]. split.
  - unfold App.gameLoop. destruct (App.running a); [|eexists; reflexivity].
    unfold App.onBoard.
    destruct (update_spec _ Hwf) as (b' & -> & _). eexists. reflexivity.
  - unfold App.clearBoard, App.onBoard.
    destruct (clear_spec _ Hwf) as (b' & -> & _). eexists. reflexivity.
Qed.

Lemma page_keeps_board_sound_witness :
  let a := App.state (App.handle App.PlayPause
             (App.state (App.handle (App.CreateBoard App.NaN (App.Whole 4))
                (App.state (App.handle (App.MouseDown 20 20 "#abcdef")
                   (App.mk false (new 50 30) "Play")))))) in
  reachable (App.board a) /\
  (exists a', App.gameLoop a = App.Done a') /\
  (exists a', App.clearBoard a = App.Done a').
Proof.
  cbv zeta. apply (page_keeps_board_sound "Play").
  do 3 apply App.reachable_handle. apply App.reachable_start.
Defined.

(** X17.  The caption of the play/pause button follows the [running]
    flag: it reads "Pause" while the simulation runs and "Play" while it
    does not, or it is still the caption the page started with and the
    simulation has not run yet. *)
Theorem caption_follows_running (caption : string) (a : App.t) :
  App.reachable caption a ->
  App.captionFits a \/
  (App.playPauseBtn a = caption /\ App.running a = false).
Proof.
  assert (forall a0, App.captionFits (App.togglePlay a0)) as Htoggle.
  { intros a0. unfold App.captionFits, App.togglePlay. simpl.
    destruct (App.running a0); reflexivity. }
  assert (forall a0 b,
            App.captionFits a0 \/
            (App.playPauseBtn a0 = caption /\ App.running a0 = false) ->
            App.captionFits (App.pause (App.set_board b a0)) \/
            (App.playPauseBtn (App.pause (App.set_board b a0)) = caption /\
             App.running (App.pause (App.set_board b a0)) = false)) as Hpause.
  { intros a0 b H. unfold App.pause. simpl.
    destruct (App.running a0) eqn:Hr; [left; apply Htoggle|].
    unfold App.captionFits in *. simpl. rewrite Hr in *. exact H. }
  induction 1 as [|a e _ IH].
  - right. split; reflexivity.
  - destruct e as [| | |w h|px py color]; simpl.
    + unfold App.gameLoop. case_eq (App.running a); intros Hr; [|exact IH].
      unfold App.onBoard. destruct (update (App.board a)) as [[] b|e b];
        simpl; unfold App.captionFits in *; simpl; exact IH.
    + left. apply Htoggle.
    + unfold App.clearBoard, App.onBoard.
      destruct (clear (App.board a)) as [[] b|e b]; simpl.
      * apply Hpause. exact IH.
      * unfold App.captionFits in *. simpl. exact IH.
    + unfold App.createBoard.
      destruct (App.belowOne w || App.belowOne h); [exact IH|].
      destruct w as [w| | |], h as [h| | |]; simpl;
        first [exact IH | apply Hpause; exact IH].
    + unfold App.mousedown, App.onBoard.
      destruct (clickCell _ _ _ _) as [[] b|e b];
        simpl; unfold App.captionFits in *; simpl; exact IH.
Qed.

Lemma caption_follows_running_witness :
  let a := App.state (App.handle App.ClearBoard
             (App.state (App.handle App.PlayPause
                (App.mk false (new 50 30) "Start")))) in
  App.captionFits a \/
  (App.playPauseBtn a = "Start"%string /\ App.running a = false).
Proof.
  cbv zeta. apply (caption_follows_running "Start").
  do 2 apply App.reachable_handle. apply App.reachable_start.
Defined.

(** X18.  A press on the canvas at whole pixel [(px, py)] toggles the
    cell whose square of [CELL_SIZE] pixels contains the pixel, when the
    pixel lies on the [width * CELL_SIZE] by [height * CELL_SIZE] canvas;
    anywhere else the handler ends in an uncaught [TypeError] and nothing
    changes. *)
Theorem mousedown_hits_the_cell (a : App.t) (px py : Z) (color : string) :
  wf (App.board a) ->
  let b := App.board a in
  let cx := px / App.CELL_SIZE in
  let cy := py / App.CELL_SIZE in
  (0 <= px < width b * App.CELL_SIZE /\ 0 <= py < height b * App.CELL_SIZE ->
     App.CELL_SIZE * cx <= px < App.CELL_SIZE * cx + App.CELL_SIZE /\
     App.CELL_SIZE * cy <= py < App.CELL_SIZE * cy + App.CELL_SIZE /\
     exists c,
       cell b cx cy = Some c /\
       App.mousedown px py color a =
         App.Done (App.set_board
                     (write_cell cx cy (Cell.toggle color c) b) a)) /\
  (~ (0 <= px < width b * App.CELL_SIZE /\
      0 <= py < height b * App.CELL_SIZE) ->
     App.mousedown px py color a = App.Uncaught TypeError a).
Proof.
  intros Hwf. cbv zeta. unfold App.CELL_SIZE. split.
  - intros [Hx Hy].
    split; [Z.div_mod_to_equations; lia|].
    split; [Z.div_mod_to_equations; lia|].
    destruct (inBounds_cell (App.board a) (px / 15) (py / 15) Hwf) as [c Hc].
    { unfold inBounds. Z.div_mod_to_equations. lia. }
    exists c. split; [exact Hc|].
    unfold App.mousedown, App.onBoard, App.CELL_SIZE, clickCell.
    rewrite (onCell_Some _ _ _ _ _ Hc). reflexivity.
  - intros Hout.
    unfold App.mousedown, App.onBoard, App.CELL_SIZE, clickCell.
    rewrite onCell_None.
    + destruct a. reflexivity.
    + apply outOfBounds_cell; [assumption|]. unfold inBounds. intros Hin.
      apply Hout. Z.div_mod_to_equations. lia.
Qed.

Lemma mousedown_hits_the_cell_witness :
  let a := App.mk false tromino "Play" in
  (App.CELL_SIZE * (17 / App.CELL_SIZE) <= 17
     < App.CELL_SIZE * (17 / App.CELL_SIZE) + App.CELL_SIZE /\
   App.CELL_SIZE * (29 / App.CELL_SIZE) <= 29
     < App.CELL_SIZE * (29 / App.CELL_SIZE) + App.CELL_SIZE /\
   exists c,
     cell tromino (17 / App.CELL_SIZE) (29 / App.CELL_SIZE) = Some c /\
     App.mousedown 17 29 "#abcdef" a =
       App.Done (App.set_board
                   (write_cell (17 / App.CELL_SIZE) (29 / App.CELL_SIZE)
                      (Cell.toggle "#abcdef" c) tromino) a)) /\
  App.mousedown 30 0 "#abcdef" a = App.Uncaught TypeError a.
Proof.
  cbv zeta. split.
  - apply (mousedown_hits_the_cell (App.mk false tromino "Play") 17 29
             "#abcdef").
    + split; vm_compute; repeat constructor.
    + vm_compute. repeat split; congruence.
  - apply (mousedown_hits_the_cell (App.mk false tromino "Play") 30 0
             "#abcdef").
    + split; vm_compute; repeat constructor.
    + vm_compute. intros [[_ H] _]. discriminate H.
Defined.

(** X19.  [clearBoard] leaves every cell dead and the simulation paused,
    so that the next call of [gameLoop] by the timer changes nothing. *)
Theorem clearBoard_pauses (a : App.t) :
  wf (App.board a) ->
  exists a',
    App.clearBoard a = App.Done a' /\
    App.running a' = false /\ allDead (App.board a') /\
    App.gameLoop a' = App.Done a'.
Proof.
  intros Hwf. unfold App.clearBoard, App.onBoard.
  destruct (clear_spec _ Hwf) as (b' & -> & Hwf' & Hw & Hh & _ & Hcells).
  eexists. split; [reflexivity|].
  assert (App.running (App.pause (App.set_board b' a)) = false) as Hstop.
  { unfold App.pause. simpl.
    destruct (App.running a) eqn:Hr; simpl; rewrite Hr; reflexivity. }
  split; [exact Hstop|]. split.
  - rewrite pause_board. simpl. intros x y c Hc.
    destruct (inBounds_cell (App.board a) x y Hwf) as [c0 Hc0].
    + pose proof (cell_inBounds _ _ _ _ Hwf' Hc) as Hin.
      unfold inBounds in *. rewrite <- Hw, <- Hh. assumption.
    + rewrite (Hcells _ _ _ Hc0) in Hc. injection Hc as <-. reflexivity.
  - unfold App.gameLoop. rewrite Hstop. reflexivity.
Qed.

Lemma clearBoard_pauses_witness :
  exists a',
    App.clearBoard (App.mk true tromino "Pause") = App.Done a' /\
    App.running a' = false /\ allDead (App.board a') /\
    App.gameLoop a' = App.Done a'.
Proof.
  apply (clearBoard_pauses (App.mk true tromino "Pause")).
  split; vm_compute; repeat constructor.
Defined.

(** * Many generations *)

(** X20.  Any number [n] of [update] calls in a row all return, the
    board they leave has the size of the one they started from, and its
    living cells are those of the starting pattern advanced [n] times by
    the rule: the colours and maturities the calls leave behind never feed
    back into it. *)
Theorem generations_pattern (n : nat) (b : Board.t) (f : Z -> Z -> bool) :
  wf b -> hasPattern b f ->
  forEach (repeat tt n) (fun _ => update) b = Ok tt (generations n b) /\
  wf (generations n b) /\
  width (generations n b) = width b /\ height (generations n b) = height b /\
  hasPattern (generations n b)
    (Nat.iter n (nextPattern (width b) (height b)) f).
Proof.
  revert b f. induction n as [|n IH]; intros b f Hwf Hf.
  - simpl. auto.
  - destruct (update_pattern b f Hwf Hf) as (b' & Hrun & Hwf' & Hw & Hh & Hf').
    assert (generations (S n) b = generations n b') as ->.
    { unfold generations, runOps. simpl. rewrite Hrun. reflexivity. }
    destruct (IH b' _ Hwf' Hf') as (H0 & H1 & H2 & H3 & H4).
    rewrite Hw, Hh in *. split.
    { simpl. unfold bind. rewrite Hrun. exact H0. }
    repeat (split; [assumption|]).
    rewrite Nat.iter_succ_r. exact H4.
Qed.

Lemma generations_pattern_witness :
  forEach (repeat tt 7) (fun _ => update) blinker
    = Ok tt (generations 7 blinker) /\
  wf (generations 7 blinker) /\
  width (generations 7 blinker) = width blinker /\
  height (generations 7 blinker) = height blinker /\
  hasPattern (generations 7 blinker)
    (Nat.iter 7 (nextPattern (width blinker) (height blinker))
       (inSet horizontal)).
Proof.
  apply (generations_pattern 7 blinker (inSet horizontal)).
  - split; vm_compute; repeat constructor.
  - apply checkPattern_sound.
    + split; vm_compute; repeat constructor.
    + vm_compute. reflexivity.
Defined.

(** * The first version of the script *)

(** ** Cells of a well-formed board *)

Lemma plain_cell_Some (b : Plain.Board) (x y : Z) (c : Plain.Cell) :
  Plain.cell b x y = Some c <->
  exists col, index (Plain.cells b) x = Some col /\ index col y = Some c.
Proof.
  unfold Plain.cell. destruct (index (Plain.cells b) x) as [col|]; split.
  - intros H. exists col. auto.
  - intros (col' & [= <-] & H). assumption.
  - discriminate.
  - intros (col' & [=] & _).
Qed.

Lemma plain_cell_inBounds (b : Plain.Board) (x y : Z) (c : Plain.Cell) :
  Plain.wf b -> Plain.cell b x y = Some c -> Plain.inBounds b x y.
Proof.
  intros Hwf (col & Hcol & Hc)%plain_cell_Some.
  pose proof (index_length _ _ _ Hcol) as Hx.
  pose proof (index_length _ _ _ Hc) as Hy.
  apply index_Some in Hcol as [_ Hcol].
  pose proof (Plain.wf_columns b Hwf) as Hall.
  rewrite Forall_lookup in Hall. specialize (Hall _ _ Hcol). simpl in Hall.
  rewrite (Plain.wf_cells b Hwf) in Hx. unfold Plain.inBounds. lia.
Qed.

Lemma plain_inBounds_cell (b : Plain.Board) (x y : Z) :
  Plain.wf b -> Plain.inBounds b x y -> exists c, Plain.cell b x y = Some c.
Proof.
  intros Hwf [Hx Hy].
  destruct (index_inside (Plain.cells b) x) as [col Hcol].
  { rewrite (Plain.wf_cells b Hwf). lia. }
  destruct (index_inside col y) as [c Hc].
  { pose proof (Plain.wf_columns b Hwf) as Hall. rewrite Forall_lookup in Hall.
    apply index_Some in Hcol as [_ Hcol].
    specialize (Hall _ _ Hcol). simpl in Hall. lia. }
  exists c. apply plain_cell_Some. eauto.
Qed.

Lemma plain_outOfBounds_cell (b : Plain.Board) (x y : Z) :
  Plain.wf b -> ~ Plain.inBounds b x y -> Plain.cell b x y = None.
Proof.
  intros Hwf Hout. destruct (Plain.cell b x y) as [c|] eqn:Hc; [|reflexivity].
  exfalso. apply Hout. eapply plain_cell_inBounds; eassumption.
Qed.

Lemma plain_cell_write_cell (b : Plain.Board) (x y x' y' : Z)
    (c0 c : Plain.Cell) :
  Plain.cell b x y = Some c0 ->
  Plain.cell (Plain.write_cell x y c b) x' y' =
    if decide (x' = x /\ y' = y) then Some c else Plain.cell b x' y'.
Proof.
  intros (col & Hcol & Hc0)%plain_cell_Some.
  pose proof (index_length _ _ _ Hcol) as Hx.
  pose proof (index_length _ _ _ Hc0) as Hy.
  apply index_Some in Hcol as [_ Hcol].
  unfold Plain.cell at 1, Plain.write_cell, index. simpl.
  destruct (Z.ltb_spec x' 0) as [Hneg|Hpos].
  { rewrite decide_False by lia. unfold Plain.cell, index.
    destruct (Z.ltb_spec x' 0); [reflexivity | lia]. }
  destruct (decide (Z.to_nat x' = Z.to_nat x)) as [Heq|Hne].
  - rewrite Heq, list_lookup_alter_eq, Hcol. simpl.
    assert (x' = x) as -> by lia.
    destruct (Z.ltb_spec y' 0) as [Hyneg|Hypos].
    { rewrite decide_False by lia. unfold Plain.cell, index.
      destruct (Z.ltb_spec x 0); [lia|]. rewrite Hcol.
      destruct (Z.ltb_spec y' 0); [reflexivity | lia]. }
    destruct (decide (Z.to_nat y' = Z.to_nat y)) as [Hyeq|Hyne].
    + rewrite Hyeq, list_lookup_insert_eq by lia.
      rewrite decide_True by lia. reflexivity.
    + rewrite list_lookup_insert_ne by congruence.
      rewrite decide_False by lia. unfold Plain.cell, index.
      destruct (Z.ltb_spec x 0); [lia|]. rewrite Hcol.
      destruct (Z.ltb_spec y' 0); [lia | reflexivity].
  - rewrite list_lookup_alter_ne by congruence.
    rewrite decide_False by lia. unfold Plain.cell, index.
    destruct (Z.ltb_spec x' 0); [lia | reflexivity].
Qed.

Lemma plain_wf_write_cell (b : Plain.Board) (x y : Z) (c : Plain.Cell) :
  Plain.wf b -> Plain.wf (Plain.write_cell x y c b).
Proof.
  intros [H1 H2 H3 H4]. split; simpl; try assumption.
  - rewrite length_alter. assumption.
  - rewrite Forall_lookup in H2 |- *. intros i col Hi.
    destruct (decide (i = Z.to_nat x)) as [->|Hne].
    + rewrite list_lookup_alter_eq in Hi.
      destruct (Plain.cells b !! Z.to_nat x) as [col0|] eqn:E; [|discriminate].
      simpl in Hi. injection Hi as <-. rewrite length_insert. eauto.
    + rewrite list_lookup_alter_ne in Hi by congruence. eauto.
Qed.

Lemma plain_write_cell_write_cell (b : Plain.Board) (x y : Z)
    (c1 c2 : Plain.Cell) :
  Plain.write_cell x y c2 (Plain.write_cell x y c1 b) = Plain.write_cell x y c2 b.
Proof.
  unfold Plain.write_cell. simpl. f_equal.
  rewrite list_alter_alter_eq. apply list_alter_ext; [|reflexivity].
  intros col _. simpl. apply list_insert_insert_eq.
Qed.

Lemma plain_write_cell_id (b : Plain.Board) (x y : Z) (c : Plain.Cell) :
  Plain.cell b x y = Some c -> Plain.write_cell x y c b = b.
Proof.
  intros (col & Hcol & Hc)%plain_cell_Some.
  apply index_Some in Hcol as [_ Hcol]. apply index_Some in Hc as [_ Hc].
  destruct b as [w h cs nx]. unfold Plain.write_cell. simpl in *. f_equal.
  rewrite <- (list_alter_id id cs (Z.to_nat x)) at 2 by reflexivity.
  apply list_alter_ext; [|reflexivity].
  intros col' Hcol'. rewrite Hcol in Hcol'. injection Hcol' as <-.
  apply list_insert_id. assumption.
Qed.

Lemma plain_cellAt_Some (b : Plain.Board) (x y : Z) (c : Plain.Cell) :
  Plain.cell b x y = Some c -> Plain.cellAt x y b = Plain.Ok c b.
Proof.
  unfold Plain.cell, Plain.cellAt.
  destruct (index (Plain.cells b) x) as [col|]; [|discriminate].
  intros ->. reflexivity.
Qed.

Lemma plain_cellAt_None (b : Plain.Board) (x y : Z) :
  Plain.cell b x y = None -> Plain.cellAt x y b = Plain.Throw TypeError b.
Proof.
  unfold Plain.cell, Plain.cellAt.
  destruct (index (Plain.cells b) x) as [col|]; [|reflexivity].
  intros ->. reflexivity.
Qed.

Lemma plain_onCell_Some (b : Plain.Board) (x y : Z)
    (f : Plain.Cell -> Plain.Cell) (c : Plain.Cell) :
  Plain.cell b x y = Some c ->
  Plain.onCell x y f b = Plain.Ok tt (Plain.write_cell x y (f c) b).
Proof.
  intros H. unfold Plain.onCell, Plain.bind.
  rewrite (plain_cellAt_Some _ _ _ _ H). reflexivity.
Qed.

Lemma plain_onCell_None (b : Plain.Board) (x y : Z)
    (f : Plain.Cell -> Plain.Cell) :
  Plain.cell b x y = None -> Plain.onCell x y f b = Plain.Throw TypeError b.
Proof.
  intros H. unfold Plain.onCell, Plain.bind.
  rewrite (plain_cellAt_None _ _ _ H). reflexivity.
Qed.

(** ** Its [getLivingNeighbors] *)

Lemma plain_neighbors_inBounds (b : Plain.Board) (x y : Z) :
  Plain.inBounds b x y ->
  Forall (fun p => Plain.inBounds b p.1 p.2)
    (snd <$> List.filter fst
       (Plain.neighborChecks (Plain.width b) (Plain.height b) x y)).
Proof.
  intros [Hx Hy]. unfold Plain.neighborChecks, Plain.inBounds.
  destruct (Z.eqb_spec x 0), (Z.eqb_spec y 0),
    (Z.eqb_spec x (Plain.width b - 1)), (Z.eqb_spec y (Plain.height b - 1));
    simpl;
    repeat (apply Forall_cons_2; [simpl; lia|]);
    apply Forall_nil_2.
Qed.

Lemma plain_countAlive_spec (b : Plain.Board) (f : Z -> Z -> bool)
    (checks : list (bool * (Z * Z))) :
  Plain.wf b -> Plain.hasPattern b f ->
  Forall (fun p => Plain.inBounds b p.1 p.2) (snd <$> List.filter fst checks) ->
  forall count,
    Plain.countAlive checks count b
      = Plain.Ok (count + Plain.countOn f checks) b.
Proof.
  intros Hwf Hf. unfold Plain.countOn.
  induction checks as [|[guard [nx ny]] rest IH]; intros Hall count.
  - simpl. unfold Plain.ret. f_equal. lia.
  - simpl in *. destruct guard; simpl in *.
    + apply Forall_cons in Hall as [Hin Hall]. simpl in Hin.
      destruct (plain_inBounds_cell _ _ _ Hwf Hin) as [c Hc].
      unfold Plain.bind. rewrite (plain_cellAt_Some _ _ _ _ Hc).
      rewrite (IH Hall). rewrite <- (Hf _ _ _ Hc).
      destruct (Plain.isAlive c); simpl; f_equal; unfold fmap; lia.
    + apply IH. assumption.
Qed.

Lemma plain_getLivingNeighbors_spec (b : Plain.Board) (f : Z -> Z -> bool)
    (x y : Z) :
  Plain.wf b -> Plain.hasPattern b f -> Plain.inBounds b x y ->
  Plain.getLivingNeighbors x y b =
    Plain.Ok (Plain.countOn f
                (Plain.neighborChecks (Plain.width b) (Plain.height b) x y)) b.
Proof.
  intros Hwf Hf Hin. unfold Plain.getLivingNeighbors, Plain.bind, Plain.get.
  rewrite (plain_countAlive_spec b f _ Hwf Hf
             (plain_neighbors_inBounds _ _ _ Hin)).
  reflexivity.
Qed.

Lemma countOn_app (f : Z -> Z -> bool) (l1 l2 : list (bool * (Z * Z))) :
  Plain.countOn f (l1 ++ l2) = Plain.countOn f l1 + Plain.countOn f l2.
Proof.
  unfold Plain.countOn.
  rewrite List.filter_app, fmap_app, List.filter_app, length_app. lia.
Qed.

(** The scan of the first version is that of the later ones, started four
    blocks further on. *)
Lemma plain_count_is_count (f : Z -> Z -> bool) (w h x y : Z) :
  Plain.countOn f (Plain.neighborChecks w h x y) =
  Plain.countOn f (neighborChecks w h x y).
Proof.
  change (Plain.neighborChecks w h x y)
    with (drop 4 (neighborChecks w h x y) ++ take 4 (neighborChecks w h x y)).
  rewrite <- (take_drop 4 (neighborChecks w h x y)) at 3.
  rewrite !countOn_app. lia.
Qed.

Lemma plain_nextState_spec (b : Plain.Board) (f : Z -> Z -> bool) (x y : Z) :
  Plain.wf b -> Plain.hasPattern b f -> Plain.inBounds b x y ->
  Plain.nextState x y b =
    Plain.Ok (aliveNext (f x y)
                (Plain.countOn f
                   (Plain.neighborChecks (Plain.width b) (Plain.height b) x y)))
             b.
Proof.
  intros Hwf Hf Hin. destruct (plain_inBounds_cell _ _ _ Hwf Hin) as [c Hc].
  unfold Plain.nextState, Plain.bind. rewrite (plain_cellAt_Some _ _ _ _ Hc).
  cbv beta iota. rewrite <- (Hf _ _ _ Hc). unfold aliveNext.
  destruct (Plain.isAlive c); cbv beta iota;
    rewrite (plain_getLivingNeighbors_spec _ _ _ _ Hwf Hf Hin);
    [|reflexivity].
  destruct (_ =? 2) eqn:E2; [reflexivity|].
  rewrite (plain_getLivingNeighbors_spec _ _ _ _ Hwf Hf Hin). reflexivity.
Qed.

(** ** Its loops *)

Lemma plain_forEach_seqZ_inv (I : Z -> Plain.Board -> Prop)
    (body : Z -> Plain.M unit) (n : nat) :
  forall (m : Z) (b : Plain.Board),
    I m b ->
    (forall i s, m <= i < m + Z.of_nat n -> I i s ->
       exists s', body i s = Plain.Ok tt s' /\ I (i + 1) s') ->
    exists b', Plain.forEach (seqZ m (Z.of_nat n)) body b = Plain.Ok tt b' /\
               I (m + Z.of_nat n) b'.
Proof.
  induction n as [|n IH]; intros m b Hm Hstep.
  - exists b. split; [reflexivity|]. replace (m + Z.of_nat 0) with m by lia.
    assumption.
  - rewrite seqZ_cons by lia. simpl Plain.forEach. unfold Plain.bind.
    destruct (Hstep m b) as (s' & -> & Hs'); [lia | assumption |].
    replace (Z.pred (Z.of_nat (S n))) with (Z.of_nat n) by lia.
    destruct (IH (Z.succ m) s') as (b' & Hb' & HI).
    + replace (Z.succ m) with (m + 1) by lia. assumption.
    + intros i s Hi. apply Hstep. lia.
    + exists b'. split; [assumption|].
      replace (m + Z.of_nat (S n)) with (Z.succ m + Z.of_nat n) by lia.
      assumption.
Qed.

Lemma plain_for_upto_inv (I : Z -> Plain.Board -> Prop) (n : Z)
    (body : Z -> Plain.M unit) (b : Plain.Board) :
  I 0 b ->
  (forall i s, 0 <= i < n -> I i s ->
     exists s', body i s = Plain.Ok tt s' /\ I (i + 1) s') ->
  exists b', Plain.for_upto n body b = Plain.Ok tt b' /\ I (Z.max 0 n) b'.
Proof.
  intros H0 Hstep. unfold Plain.for_upto.
  assert (seqZ 0 n = seqZ 0 (Z.of_nat (Z.to_nat n))) as ->.
  { unfold seqZ. rewrite Nat2Z.id. reflexivity. }
  replace (Z.max 0 n) with (0 + Z.of_nat (Z.to_nat n)) by lia.
  apply plain_forEach_seqZ_inv; [assumption|].
  intros i s Hi. apply Hstep. lia.
Qed.

Lemma plain_for_grid_inv (J : Z -> Z -> Plain.Board -> Prop) (w h : Z)
    (body : Z -> Z -> Plain.M unit) (b : Plain.Board) :
  J 0 0 b ->
  (forall x y s, 0 <= x < w -> 0 <= y < h -> J x y s ->
     exists s', body x y s = Plain.Ok tt s' /\ J x (y + 1) s') ->
  (forall x s, 0 <= x < w -> J x (Z.max 0 h) s -> J (x + 1) 0 s) ->
  exists b',
    Plain.for_upto w (fun x => Plain.for_upto h (body x)) b = Plain.Ok tt b' /\
    J (Z.max 0 w) 0 b'.
Proof.
  intros H0 Hstep Hrow.
  apply (plain_for_upto_inv (fun x s => J x 0 s)); [assumption|].
  intros x s Hx HJ.
  destruct (plain_for_upto_inv (fun y s => J x y s) h (body x) s)
    as (s' & Hs' & HJ').
  - assumption.
  - intros y s0 Hy. apply Hstep; assumption.
  - exists s'. split; [assumption|]. apply Hrow; assumption.
Qed.

Lemma plain_setNext_spec (b : Plain.Board) (x y : Z) (v : bool) :
  Plain.wf b -> Plain.inBounds b x y ->
  exists nx,
    Plain.setNext x y v b =
      Plain.Ok tt (Plain.mkBoard (Plain.width b) (Plain.height b)
                     (Plain.cells b) nx) /\
    Plain.wf (Plain.mkBoard (Plain.width b) (Plain.height b)
                (Plain.cells b) nx) /\
    forall x' y',
      Plain.nextAt (Plain.mkBoard (Plain.width b) (Plain.height b)
                      (Plain.cells b) nx) x' y' =
        if decide (x' = x /\ y' = y) then Some v else Plain.nextAt b x' y'.
Proof.
  intros Hwf [Hx Hy].
  destruct (index_inside (Plain.next b) x) as [col Hcol].
  { rewrite (Plain.wf_next b Hwf). lia. }
  pose proof Hcol as [_ Hcol']%index_Some.
  assert (length col = Z.to_nat (Plain.height b)) as Hlen.
  { pose proof (Plain.wf_next_columns b Hwf) as Hall.
    rewrite Forall_lookup in Hall. apply (Hall _ _ Hcol'). }
  assert (store col y v = <[Z.to_nat y := v]> col) as Hstore.
  { unfold store. destruct (Z.ltb_spec y 0); [lia|].
    destruct (Z.ltb_spec y (Z.of_nat (length col))); [reflexivity | lia]. }
  exists (<[Z.to_nat x := store col y v]> (Plain.next b)).
  unfold Plain.setNext. rewrite Hcol. split; [reflexivity|]. split.
  - destruct Hwf as [H1 H2 H3 H4]. split; simpl; try assumption.
    + rewrite length_insert. assumption.
    + apply Forall_insert; [assumption|].
      rewrite Hstore, length_insert. assumption.
  - intros x' y'. unfold Plain.nextAt, index. simpl.
    destruct (Z.ltb_spec x' 0) as [Hneg|Hpos].
    { rewrite decide_False by lia. reflexivity. }
    destruct (decide (Z.to_nat x' = Z.to_nat x)) as [Heq|Hne].
    + assert (x' = x) as -> by lia.
      rewrite list_lookup_insert_eq by (rewrite (Plain.wf_next b Hwf); lia).
      rewrite Hcol', Hstore.
      destruct (Z.ltb_spec y' 0) as [Hyneg|Hypos].
      { rewrite decide_False by lia. reflexivity. }
      destruct (decide (Z.to_nat y' = Z.to_nat y)) as [Hyeq|Hyne].
      * rewrite Hyeq, list_lookup_insert_eq by lia.
        rewrite decide_True by lia. reflexivity.
      * rewrite list_lookup_insert_ne by congruence.
        rewrite decide_False by lia. reflexivity.
    + rewrite list_lookup_insert_ne by congruence.
      rewrite decide_False by lia. reflexivity.
Qed.

(** ** Its [update] *)

Lemma plain_bind_Ok {A B} (m : Plain.M A) (k : A -> Plain.M B)
    (b b' : Plain.Board) (a : A) (r : Plain.Outcome B) :
  m b = Plain.Ok a b' -> k a b' = r -> Plain.bind m k b = r.
Proof. intros Hm Hk. unfold Plain.bind. rewrite Hm. exact Hk. Qed.

Lemma plain_firstPassAt_step (f : Z -> Z -> bool) (b s : Plain.Board)
    (x0 y0 : Z) :
  Plain.hasPattern b f -> Plain.inBounds b x0 y0 ->
  Plain.firstPassAt f b x0 y0 s ->
  exists s',
    Plain.bind (Plain.nextState x0 y0) (fun v => Plain.setNext x0 y0 v) s
      = Plain.Ok tt s' /\
    Plain.firstPassAt f b x0 (y0 + 1) s'.
Proof.
  intros Hf Hin (Hwfs & Hw & Hh & Hcs & Hnext).
  assert (Plain.hasPattern s f) as Hfs.
  { intros x y c. unfold Plain.cell. rewrite Hcs. apply Hf. }
  assert (Plain.inBounds s x0 y0) as Hins.
  { unfold Plain.inBounds. rewrite Hw, Hh. exact Hin. }
  unfold Plain.bind. rewrite (plain_nextState_spec _ _ _ _ Hwfs Hfs Hins).
  rewrite Hw, Hh.
  destruct (plain_setNext_spec s x0 y0
              (aliveNext (f x0 y0)
                 (Plain.countOn f
                    (Plain.neighborChecks (Plain.width b) (Plain.height b)
                       x0 y0)))
              Hwfs Hins) as (nx & -> & Hwf' & Hnx).
  eexists. split; [reflexivity|].
  split; [assumption|]. split; [exact Hw|]. split; [exact Hh|].
  split; [exact Hcs|]. intros x y Hxy V. rewrite Hnx.
  destruct (decide (x = x0 /\ y = y0)) as [[-> ->]|Hne]; [reflexivity|].
  apply Hnext; [assumption|]. apply visited_next in V. tauto.
Qed.

Lemma plain_cellwise_loop (g : Z -> Z -> Plain.Cell -> Plain.Cell)
    (body : Z -> Z -> Plain.M unit) (b : Plain.Board) :
  Plain.wf b ->
  (forall x y s c, Plain.wf s -> Plain.next s = Plain.next b ->
     Plain.cell s x y = Some c ->
     body x y s = Plain.Ok tt (Plain.write_cell x y (g x y c) s)) ->
  exists b',
    Plain.for_upto (Plain.width b)
      (fun x => Plain.for_upto (Plain.height b) (body x)) b = Plain.Ok tt b' /\
    Plain.wf b' /\ Plain.width b' = Plain.width b /\
    Plain.height b' = Plain.height b /\ Plain.next b' = Plain.next b /\
    forall x y c, Plain.cell b x y = Some c ->
      Plain.cell b' x y = Some (g x y c).
Proof.
  intros Hwf Hbody.
  destruct (plain_for_grid_inv (Plain.cellwiseAt g b)
              (Plain.width b) (Plain.height b) body b)
    as (b' & Hrun & Hinv).
  - split; [assumption|]. repeat (split; [reflexivity|]).
    intros x y c Hc. pose proof (plain_cell_inBounds _ _ _ _ Hwf Hc) as [Hx Hy].
    split; [|auto]. unfold visited. lia.
  - intros x0 y0 s Hx Hy (Hwfs & Hw & Hh & Hn & Hcells).
    destruct (plain_inBounds_cell b x0 y0 Hwf) as [c0 Hc0]; [split; assumption|].
    assert (Plain.cell s x0 y0 = Some c0) as Hs0.
    { apply (Hcells _ _ _ Hc0). unfold visited. lia. }
    rewrite (Hbody _ _ _ _ Hwfs Hn Hs0). eexists. split; [reflexivity|].
    split; [apply plain_wf_write_cell; assumption|].
    split; [exact Hw|]. split; [exact Hh|]. split; [exact Hn|].
    intros x y c Hc. destruct (Hcells _ _ _ Hc) as [Hv Hnv].
    rewrite (plain_cell_write_cell _ _ _ _ _ _ _ Hs0).
    destruct (decide (x = x0 /\ y = y0)) as [[-> ->]|Hne].
    + assert (c = c0) as -> by congruence. split; [reflexivity|].
      intros V. exfalso. apply V. apply visited_next. auto.
    + split.
      * intros [V|V]%visited_next; [auto | tauto].
      * intros V. apply Hnv. intros V'. apply V. apply visited_next. auto.
  - intros x s Hx (Hwfs & Hw & Hh & Hn & Hcells).
    repeat (split; [assumption|]).
    intros x' y' c Hc.
    pose proof (plain_cell_inBounds _ _ _ _ Hwf Hc) as [Hx' Hy'].
    destruct (Hcells _ _ _ Hc) as [Hv Hnv]. split.
    + intros V. apply Hv. unfold visited in *. lia.
    + intros V. apply Hnv. unfold visited in *. lia.
  - exists b'. split; [exact Hrun|].
    destruct Hinv as (Hwf' & Hw & Hh & Hn & Hcells).
    repeat (split; [assumption|]).
    intros x y c Hc. pose proof (plain_cell_inBounds _ _ _ _ Hwf Hc) as [Hx Hy].
    apply (Hcells _ _ _ Hc). unfold visited. lia.
Qed.

Lemma plain_applyCell_spec (b : Plain.Board) (x y : Z) (c : Plain.Cell) :
  Plain.wf b -> Plain.cell b x y = Some c ->
  Plain.applyCell x y b =
    Plain.Ok tt
      (Plain.write_cell x y
         (Plain.set_isAlive (default false (Plain.nextAt b x y)) c) b).
Proof.
  intros Hwf Hc. pose proof (plain_cell_inBounds _ _ _ _ Hwf Hc) as [Hx Hy].
  destruct (index_inside (Plain.next b) x) as [col Hcol].
  { rewrite (Plain.wf_next b Hwf). lia. }
  unfold Plain.applyCell, Plain.bind. rewrite (plain_cellAt_Some _ _ _ _ Hc).
  unfold Plain.getNext, Plain.nextAt. rewrite Hcol.
  apply plain_onCell_Some. assumption.
Qed.

Lemma plain_update_pattern (b : Plain.Board) (f : Z -> Z -> bool) :
  Plain.wf b -> Plain.hasPattern b f ->
  exists b',
    Plain.update b = Plain.Ok tt b' /\ Plain.wf b' /\
    Plain.width b' = Plain.width b /\ Plain.height b' = Plain.height b /\
    (forall x y c, Plain.cell b x y = Some c ->
       Plain.cell b' x y =
         Some (Plain.set_isAlive
                 (nextPattern (Plain.width b) (Plain.height b) f x y) c)) /\
    (forall x y, Plain.inBounds b x y ->
       Plain.nextAt b' x y =
         Some (nextPattern (Plain.width b) (Plain.height b) f x y)).
Proof.
  intros Hwf Hf.
  destruct (plain_for_grid_inv (Plain.firstPassAt f b)
              (Plain.width b) (Plain.height b)
              (fun x y => Plain.bind (Plain.nextState x y)
                            (fun v => Plain.setNext x y v)) b)
    as (b1 & Hrun1 & Hwf1 & Hw1 & Hh1 & Hcs1 & Hnext1).
  { split; [assumption|]. repeat (split; [reflexivity|]).
    intros x y [Hx Hy] V. unfold visited in V. lia. }
  { intros x y s Hx Hy. apply plain_firstPassAt_step; [assumption|].
    split; assumption. }
  { intros x s Hx (Hwfs & Hw & Hh & Hcs & Hnext).
    repeat (split; [assumption|]). intros x' y' [Hx' Hy'] V.
    apply Hnext; [split; assumption|]. unfold visited in *. lia. }
  assert (forall x y, Plain.inBounds b x y ->
            Plain.nextAt b1 x y =
              Some (nextPattern (Plain.width b) (Plain.height b) f x y))
    as Hstaged.
  { intros x y [Hx Hy]. rewrite Hnext1.
    - rewrite plain_count_is_count. reflexivity.
    - split; assumption.
    - unfold visited. lia. }
  destruct (plain_cellwise_loop
              (fun x y c =>
                 Plain.set_isAlive (default false (Plain.nextAt b1 x y)) c)
              Plain.applyCell b1 Hwf1)
    as (b2 & Hrun2 & Hwf2 & Hw2 & Hh2 & Hn2 & Hcells2).
  { intros x y s c Hwfs Hn Hc. rewrite (plain_applyCell_spec _ _ _ _ Hwfs Hc).
    unfold Plain.nextAt. rewrite Hn. reflexivity. }
  exists b2. split.
  { unfold Plain.update.
    apply plain_bind_Ok with (a := tt) (b' := b1); [exact Hrun1 | exact Hrun2]. }
  split; [assumption|]. split; [congruence|]. split; [congruence|]. split.
  - intros x y c Hc. pose proof (plain_cell_inBounds _ _ _ _ Hwf Hc) as Hin.
    assert (Plain.cell b1 x y = Some c) as Hc1.
    { unfold Plain.cell. rewrite Hcs1. exact Hc. }
    rewrite (Hcells2 _ _ _ Hc1), (Hstaged _ _ Hin). reflexivity.
  - intros x y Hin. unfold Plain.nextAt. rewrite Hn2. apply (Hstaged _ _ Hin).
Qed.

(** ** The two versions side by side *)

Lemma versions_share_pattern (b : Board.t) (p : Plain.Board) :
  wf b -> Plain.wf p ->
  Plain.width p = width b -> Plain.height p = height b ->
  (forall x y c pc, cell b x y = Some c -> Plain.cell p x y = Some pc ->
     Plain.isAlive pc = Cell.isAlive c) ->
  hasPattern b (fun x y => isAliveAt b (x, y)) /\
  Plain.hasPattern p (fun x y => isAliveAt b (x, y)).
Proof.
  intros Hwf Hwfp Hw Hh Hsame. split.
  - intros x y c Hc. unfold isAliveAt. simpl. rewrite Hc. reflexivity.
  - intros x y pc Hpc. destruct (inBounds_cell b x y Hwf) as [c Hc].
    + pose proof (plain_cell_inBounds _ _ _ _ Hwfp Hpc) as Hin.
      unfold Plain.inBounds, inBounds in *. rewrite <- Hw, <- Hh. assumption.
    + rewrite (Hsame _ _ _ _ Hc Hpc). unfold isAliveAt. simpl. rewrite Hc.
      reflexivity.
Qed.

(** X21.  The version with colour and maturity plays the same game as
    the first version: started from boards of the same size with the same
    living cells, [update] of either returns a board of that size, with a
    cell at every position, and the same cells are alive on both. *)
Theorem versions_agree (b : Board.t) (p : Plain.Board) :
  wf b -> Plain.wf p ->
  Plain.width p = width b -> Plain.height p = height b ->
  (forall x y c pc, cell b x y = Some c -> Plain.cell p x y = Some pc ->
     Plain.isAlive pc = Cell.isAlive c) ->
  exists b' p',
    update b = Ok tt b' /\ Plain.update p = Plain.Ok tt p' /\
    wf b' /\ width b' = width b /\ height b' = height b /\
    Plain.wf p' /\ Plain.width p' = width b /\ Plain.height p' = height b /\
    forall x y, inBounds b x y ->
      exists c pc,
        cell b' x y = Some c /\ Plain.cell p' x y = Some pc /\
        Plain.isAlive pc = Cell.isAlive c.
Proof.
  intros Hwf Hwfp Hw Hh Hsame.
  destruct (versions_share_pattern b p Hwf Hwfp Hw Hh Hsame) as [Hf Hfp].
  destruct (update_pattern b _ Hwf Hf) as (b' & Hrun & Hwf' & Hw' & Hh' & Hf').
  destruct (plain_update_pattern p _ Hwfp Hfp)
    as (p' & Hrunp & Hwfp' & Hwp & Hhp & Hcellsp & _).
  exists b', p'. split; [exact Hrun|]. split; [exact Hrunp|].
  repeat (split; [assumption || congruence|]).
  intros x y Hin.
  destruct (inBounds_cell b' x y Hwf') as [c Hc].
  { unfold inBounds in *. rewrite Hw', Hh'. exact Hin. }
  destruct (plain_inBounds_cell p x y Hwfp) as [pc0 Hpc0].
  { unfold Plain.inBounds, inBounds in *. rewrite Hw, Hh. exact Hin. }
  exists c. eexists. split; [exact Hc|].
  split; [apply (Hcellsp _ _ _ Hpc0)|].
  simpl. rewrite (Hf' _ _ _ Hc), Hw, Hh. reflexivity.
Qed.

Lemma versions_agree_witness :
  let p := Plain.state_of (Plain.clickCell 0 1
             (Plain.state_of (Plain.clickCell 1 0
                (Plain.state_of (Plain.clickCell 0 0 (Plain.new 2 2)))))) in
  exists b' p',
    update tromino = Ok tt b' /\ Plain.update p = Plain.Ok tt p' /\
    wf b' /\ width b' = width tromino /\ height b' = height tromino /\
    Plain.wf p' /\ Plain.width p' = width tromino /\
    Plain.height p' = height tromino /\
    forall x y, inBounds tromino x y ->
      exists c pc,
        cell b' x y = Some c /\ Plain.cell p' x y = Some pc /\
        Plain.isAlive pc = Cell.isAlive c.
Proof.
  cbv zeta. apply versions_agree.
  - split; vm_compute; repeat constructor.
  - split; vm_compute; repeat constructor.
  - reflexivity.
  - reflexivity.
  - intros x y c pc Hc Hpc.
    assert (inBounds tromino x y) as [Hx Hy].
    { apply (cell_inBounds tromino x y c); [|exact Hc].
      split; vm_compute; repeat constructor. }
    change (width tromino) with 2 in Hx. change (height tromino) with 2 in Hy.
    assert (x = 0 \/ x = 1) as [-> | ->] by lia;
      assert (y = 0 \/ y = 1) as [-> | ->] by lia;
      vm_compute in Hc, Hpc; injection Hc as <-; injection Hpc as <-;
      reflexivity.
Defined.

(** X22.  The two versions count the same living neighbours, although
    the first starts its scan at the right-hand neighbour and the later
    ones at the left-hand one; the first version's count changes nothing
    on its board. *)
Theorem versions_count_alike (b : Board.t) (p : Plain.Board) (x y : Z) :
  wf b -> Plain.wf p ->
  Plain.width p = width b -> Plain.height p = height b ->
  (forall x y c pc, cell b x y = Some c -> Plain.cell p x y = Some pc ->
     Plain.isAlive pc = Cell.isAlive c) ->
  inBounds b x y ->
  exists n b',
    getLivingNeighbors x y b = Ok n b' /\
    Plain.getLivingNeighbors x y p = Plain.Ok n p.
Proof.
  intros Hwf Hwfp Hw Hh Hsame Hin.
  destruct (versions_share_pattern b p Hwf Hwfp Hw Hh Hsame) as [Hf Hfp].
  destruct (inBounds_cell _ _ _ Hwf Hin) as [c Hc].
  eexists. eexists. split; [apply (getLivingNeighbors_spec _ _ _ _ Hwf Hc)|].
  rewrite (plain_getLivingNeighbors_spec p _ x y Hwfp Hfp).
  - rewrite plain_count_is_count, Hw, Hh.
    rewrite (count_pattern _ _ _ _ Hwf Hf Hin). reflexivity.
  - unfold Plain.inBounds. rewrite Hw, Hh. exact Hin.
Qed.

Lemma versions_count_alike_witness :
  let p := Plain.state_of (Plain.clickCell 0 1
             (Plain.state_of (Plain.clickCell 1 0
                (Plain.state_of (Plain.clickCell 0 0 (Plain.new 2 2)))))) in
  exists n b',
    getLivingNeighbors 1 1 tromino = Ok n b' /\
    Plain.getLivingNeighbors 1 1 p = Plain.Ok n p.
Proof.
  cbv zeta. apply versions_count_alike.
  - split; vm_compute; repeat constructor.
  - split; vm_compute; repeat constructor.
  - reflexivity.
  - reflexivity.
  - intros x y c pc Hc Hpc.
    assert (inBounds tromino x y) as [Hx Hy].
    { apply (cell_inBounds tromino x y c); [|exact Hc].
      split; vm_compute; repeat constructor. }
    change (width tromino) with 2 in Hx. change (height tromino) with 2 in Hy.
    assert (x = 0 \/ x = 1) as [-> | ->] by lia;
      assert (y = 0 \/ y = 1) as [-> | ->] by lia;
      vm_compute in Hc, Hpc; injection Hc as <-; injection Hpc as <-;
      reflexivity.
  - split; vm_compute; split; congruence.
Defined.

(** X23.  In the first version a second click on a cell undoes the
    first: two clicks on a cell of the board leave the board exactly as it
    was. *)
Theorem plain_click_twice (p : Plain.Board) (x y : Z) :
  Plain.wf p -> Plain.inBounds p x y ->
  exists p1,
    Plain.clickCell x y p = Plain.Ok tt p1 /\
    Plain.clickCell x y p1 = Plain.Ok tt p.
Proof.
  intros Hwf Hin. destruct (plain_inBounds_cell _ _ _ Hwf Hin) as [c Hc].
  unfold Plain.clickCell.
  eexists. split; [apply (plain_onCell_Some _ _ _ _ _ Hc)|].
  assert (Plain.cell (Plain.write_cell x y (Plain.toggle c) p) x y
          = Some (Plain.toggle c)) as Hc1.
  { rewrite (plain_cell_write_cell _ _ _ _ _ _ _ Hc).
    rewrite decide_True by auto. reflexivity. }
  rewrite (plain_onCell_Some _ _ _ _ _ Hc1), plain_write_cell_write_cell.
  assert (Plain.toggle (Plain.toggle c) = c) as ->.
  { destruct c as [cx cy a]. unfold Plain.toggle. simpl.
    rewrite negb_involutive. reflexivity. }
  rewrite (plain_write_cell_id _ _ _ _ Hc). reflexivity.
Qed.

Lemma plain_click_twice_witness :
  exists p1,
    Plain.clickCell 1 2 (Plain.new 3 3) = Plain.Ok tt p1 /\
    Plain.clickCell 1 2 p1 = Plain.Ok tt (Plain.new 3 3).
Proof.
  apply (plain_click_twice (Plain.new 3 3) 1 2).
  - split; vm_compute; repeat constructor.
  - split; vm_compute; split; congruence.
Defined.
